(** * Omnichannel SDK: session state and resilient requests

    A shallow embedding of [src/SDK.ts]: the configuration objects the SDK
    class shares between its instances, the constructor, the commit of
    server-issued session state ([setAuthCodeNonce] and the session id), and
    the promise handlers of the operations.  JavaScript objects live in a
    store and are held by reference, promises are settled at most once. *)

From Stdlib Require Import ZArith String List Bool Lia.
From stdpp Require Import base option list gmap strings.

Local Open Scope Z_scope.
Local Open Scope string_scope.

(** ** JavaScript values and the object store *)

Definition loc := nat.

(** The values that occur in configuration objects, request headers and JSON
    bodies.  [VRef] is a reference to an object of the store. *)
Inductive JsVal :=
| VUndefined
| VStr (s : string)
| VNum (n : Z)
| VBool (b : bool)
| VRef (l : loc)
| VStrs (l : list string)
| VObj (fields : list (string * string)).

Abbreviation JsObject := (gmap string JsVal).
Abbreviation Heap := (gmap loc (gmap string JsVal)).
Abbreviation Headers := (gmap string string).

(** [if (s)] on a string: only the empty string is falsy. *)
Definition truthy_string (s : string) : bool :=
  match s with
  | EmptyString => false
  | String _ _ => true
  end.

(** [if (o)] on an optional string ([undefined] is falsy). *)
Definition truthy_opt (o : option string) : bool :=
  match o with
  | Some s => truthy_string s
  | None => false
  end.

(** [obj[key]] through a reference; a missing object or key reads as
    [undefined]. *)
Definition get_prop (h : Heap) (l : loc) (key : string) : JsVal :=
  match h !! l with
  | Some o => default VUndefined (o !! key)
  | None => VUndefined
  end.

(** [obj[key] = v] through a reference. *)
Definition set_prop (l : loc) (key : string) (v : JsVal) (h : Heap) : Heap :=
  alter (fun o : gmap string JsVal => <[key := v]> o) l h.

Definition num_or (d : Z) (v : JsVal) : Z :=
  match v with
  | VNum n => n
  | _ => d
  end.

(** [if (v)] on a value. *)
Definition truthy (v : JsVal) : bool :=
  match v with
  | VUndefined => false
  | VStr s => truthy_string s
  | VNum n => negb (Z.eqb n 0)
  | VBool b => b
  | VRef _ | VStrs _ | VObj _ => true
  end.

(** [v === true]. *)
Definition is_true_val (v : JsVal) : bool :=
  match v with
  | VBool b => b
  | _ => false
  end.

(** ** Responses, errors and promises *)

(** The body of a response as the HTTP client delivers it for this JSON API:
    a parsed object, or nothing (the empty string of a response without
    content, which is falsy). *)
Inductive ResponseData :=
| DataNone
| DataObject (o : gmap string JsVal).

Record AxiosResponse := mkResponse {
  status : Z;
  data : ResponseData;
  headers : option (gmap string string)
}.

(** An [Error] object: [new Error(message)] or an error raised by the HTTP
    client, which carries a [code] and, for a non-2xx answer, the response. *)
Record JsError := mkError {
  err_name : string;
  err_message : string;
  err_code : option string;
  err_response : option AxiosResponse
}.

Definition newError (message : string) : JsError :=
  {| err_name := "Error"; err_message := message;
     err_code := None; err_response := None |}.

(** What a promise is rejected with: an error, or (in [getChatToken]) the
    response object itself. *)
Inductive Thrown :=
| ThrowError (e : JsError)
| ThrowResponse (r : AxiosResponse).

(** [Error.prototype.toString]. *)
Definition error_toString (e : JsError) : string :=
  match err_name e, err_message e with
  | EmptyString, m => m
  | n, EmptyString => n
  | n, m => n ++ ": " ++ m
  end.

Definition toString (t : Thrown) : string :=
  match t with
  | ThrowError e => error_toString e
  | ThrowResponse _ => "[object Object]"
  end.

(** A promise: pending until the first [resolve] or [reject]; later calls
    are ignored. *)
Inductive Settlement :=
| Pending
| Resolved (v : ResponseData)
| Rejected (e : Thrown).

Definition resolve (v : ResponseData) (p : Settlement) : Settlement :=
  match p with
  | Pending => Resolved v
  | _ => p
  end.

Definition reject (e : Thrown) (p : Settlement) : Settlement :=
  match p with
  | Pending => Rejected e
  | _ => p
  end.

(** ** The static configuration objects of the class *)

Definition defaultRequestTimeoutConfig : gmap string JsVal :=
  list_to_map
    [ ("getChatConfig", VNum 120000);
      ("getLWIDetails", VNum 15000);
      ("getChatToken", VNum 15000);
      ("sessionInit", VNum 15000);
      ("sessionClose", VNum 15000);
      ("getReconnectableChats", VNum 15000);
      ("getReconnectAvailability", VNum 15000);
      ("submitPostChatResponse", VNum 15000);
      ("getSurveyInviteLink", VNum 15000);
      ("getChatTranscripts", VNum 30000);
      ("emailTranscript", VNum 5000);
      ("fetchDataMaskingInfo", VNum 5000);
      ("makeSecondaryChannelEventRequest", VNum 15000);
      ("getAgentAvailability", VNum 15000);
      ("sendTypingIndicator", VNum 5000);
      ("validateAuthChatRecordTimeout", VNum 15000) ].

Definition requestTimeoutConfig_keys : list string :=
  [ "getChatConfig"; "getLWIDetails"; "getChatToken"; "sessionInit";
    "sessionClose"; "getReconnectableChats"; "getReconnectAvailability";
    "submitPostChatResponse"; "getSurveyInviteLink"; "getChatTranscripts";
    "emailTranscript"; "fetchDataMaskingInfo";
    "makeSecondaryChannelEventRequest"; "getAgentAvailability";
    "sendTypingIndicator"; "validateAuthChatRecordTimeout" ].

(** Where the objects created when the modules are loaded live. *)
Definition loc_defaultRequestTimeoutConfig : loc := 0%nat.
Definition loc_waitTimeBetweenRetriesConfigs : loc := 1%nat.
Definition loc_defaultConfiguration : loc := 2%nat.
Definition loc_defaultHeaders : loc := 3%nat.

(** [SDK.defaultConfiguration]; [uuid] is the value [uuidv4()] returned when
    the class was initialised. *)
Definition defaultConfiguration (uuid : string) : gmap string JsVal :=
  list_to_map
    [ ("authCodeNonce", VStr (substring 0 8 uuid));
      ("getChatTokenRetryCount", VNum 10);
      ("getChatTokenTimeBetweenRetriesOnFailure", VNum 10000);
      ("getChatTokenRetryOn429", VBool true);
      ("maxRequestRetriesOnFailure", VNum 5);
      ("defaultRequestTimeout", VUndefined);
      ("requestTimeoutConfig", VRef loc_defaultRequestTimeoutConfig);
      ("useUnauthReconnectIdSigQueryParam", VBool false);
      ("waitTimeBetweenRetriesConfig", VRef loc_waitTimeBetweenRetriesConfigs);
      ("ocUserAgent", VStrs []) ].

Definition configuration_keys : list string :=
  [ "authCodeNonce"; "getChatTokenRetryCount";
    "getChatTokenTimeBetweenRetriesOnFailure"; "getChatTokenRetryOn429";
    "maxRequestRetriesOnFailure"; "defaultRequestTimeout";
    "requestTimeoutConfig"; "useUnauthReconnectIdSigQueryParam";
    "waitTimeBetweenRetriesConfig"; "ocUserAgent" ].

(** The store once the modules are loaded.  [waitTimes] is the imported
    [waitTimeBetweenRetriesConfigs] table and [dfltHeaders] the imported
    [Constants.defaultHeaders] object; neither is part of [SDK.ts]. *)
Definition classLoad (uuid : string) (waitTimes dfltHeaders : gmap string JsVal)
  : Heap :=
  <[loc_defaultHeaders := dfltHeaders]>
    (<[loc_defaultConfiguration := defaultConfiguration uuid]>
       (<[loc_waitTimeBetweenRetriesConfigs := waitTimes]>
          (<[loc_defaultRequestTimeoutConfig := defaultRequestTimeoutConfig]> ∅))).

(** ** SDK instances *)

Record SDK := mkSDK {
  omnichannelConfiguration : gmap string JsVal;
  configuration : loc;
  liveChatVersion : JsVal;
  sessionId : option string;
  ocUserAgent : JsVal
}.

(** The [configuration] argument of the constructor: left out, an object, or
    a value that is not an object (a string, a number, a boolean). *)
Inductive ConfigArg :=
| ArgOmitted
| ArgObject (l : loc)
| ArgPrimitive.

Inductive Constructed :=
| Built (h : Heap) (this : SDK)
| Threw (h : Heap) (e : JsError).

(** One round of [if (!target.hasOwnProperty(key)) target[key] = source[key]]
    over [keys]. *)
Definition fill_missing (keys : list string) (source target : gmap string JsVal)
  : gmap string JsVal :=
  fold_left
    (fun (t : gmap string JsVal) (key : string) =>
       match t !! key with
       | Some _ => t
       | None => <[key := default VUndefined (source !! key)]> t
       end)
    keys target.

(** The first of [required] that is no key of [o]. *)
Fixpoint first_missing (required : list string) (o : gmap string JsVal)
  : option string :=
  match required with
  | [] => None
  | key :: rest =>
      match o !! key with
      | Some _ => first_missing rest o
      | None => Some key
      end
  end.

(** ** What [SDK.ts] imports

    The enumerations, constant tables and two small predicates that [SDK.ts]
    imports from sibling modules; the SDK is parametric in them. *)
Class Imports := {
  (** [Object.values(ChannelId)] *)
  ChannelId_values : list string;
  (** [Constants.requiredOmnichannelConfigurationParameters] *)
  requiredOmnichannelConfigurationParameters : list string;
  (** [LiveChatVersion.V2] *)
  LiveChatVersion_V2 : Z;
  (** [Constants.axiosTimeoutErrorCode] *)
  axiosTimeoutErrorCode : string;
  (** [SDKError.ClientHTTPTimeoutErrorName] and
      [SDKError.ClientHTTPTimeoutErrorMessage] *)
  ClientHTTPTimeoutErrorName : string;
  ClientHTTPTimeoutErrorMessage : string;
  (** [OmnichannelHTTPHeaders.authCodeNonce], [.authenticatedUserToken],
      [.ocSessionId], [.correlationId], [.requestId] *)
  header_authCodeNonce : string;
  header_authenticatedUserToken : string;
  header_ocSessionId : string;
  header_correlationId : string;
  header_requestId : string;
  (** [Constants.bypassCacheHeaders] *)
  bypassCacheHeaders : gmap string JsVal;
  (** [Constants.defaultLocale] and [Locales.supportedLocales] *)
  defaultLocale : string;
  supportedLocales : list string;
  (** [addOcUserAgentHeader] and [sessionInitRetryHandler] of [Utils] *)
  addOcUserAgentHeader : JsVal -> gmap string JsVal -> gmap string JsVal;
  sessionInitRetryHandler : JsError -> bool -> bool;
  (** the text of the [TypeError] the engine raises when the constructor
      reaches into a [requestTimeoutConfig] that is no object, and the text
      of the one it raises when [getChatConfig] sets [headers] on a body
      that is no object *)
  typeErrorMessage : string;
  headersTypeErrorMessage : string;
  (** whether [window.document] exists *)
  window_document : bool
}.

(** [String.prototype.toLowerCase] on ASCII header names. *)
Definition lower_ascii (c : Ascii.ascii) : Ascii.ascii :=
  let n := Ascii.nat_of_ascii c in
  if ((65 <=? n)%nat && (n <=? 90)%nat)%bool
  then Ascii.ascii_of_nat (n + 32)
  else c.

Fixpoint toLowerCase (s : string) : string :=
  match s with
  | EmptyString => EmptyString
  | String c rest => String (lower_ascii c) (toLowerCase rest)
  end.

Section Instance.
Context `{Imports}.

(** The [TypeError] of the constructor.  Its text is the engine's and
    depends on the value met; it is kept abstract. *)
Definition typeError : JsError :=
  {| err_name := "TypeError"; err_message := typeErrorMessage;
     err_code := None; err_response := None |}.

(** The [TypeError] of [data.headers = {}] in [getChatConfig]. *)
Definition headersTypeError : JsError :=
  {| err_name := "TypeError"; err_message := headersTypeErrorMessage;
     err_code := None; err_response := None |}.

(** The instance field [HTTPTimeOutErrorMessage]. *)
Definition HTTPTimeOutErrorMessage : string :=
  ClientHTTPTimeoutErrorName ++ ": " ++ ClientHTTPTimeoutErrorMessage.

(** The configuration object the new instance holds: the shared default
    unless the caller passed an object with at least one key. *)
Definition chosen_configuration (h : Heap) (arg : ConfigArg) : loc :=
  match arg with
  | ArgOmitted => loc_defaultConfiguration
  | ArgPrimitive => loc_defaultConfiguration
  | ArgObject l =>
      match h !! l with
      | Some o => if Nat.eqb (size o) 0 then loc_defaultConfiguration else l
      | None => loc_defaultConfiguration
      end
  end.

(** "Validate SDK config": keys of the default configuration the held object
    lacks are copied into it (the object is updated in place). *)
Definition validate_configuration (cfg : loc) (h : Heap) : Heap :=
  match h !! cfg, h !! loc_defaultConfiguration with
  | Some o, Some d => <[cfg := fill_missing configuration_keys d o]> h
  | _, _ => h
  end.

(** "Validate individual endpointTimeout config": the same for the nested
    [requestTimeoutConfig] object; a value that is no object raises.  The
    objects of a configuration live in the store and are held by reference:
    a [requestTimeoutConfig] given by value (the [VStrs] and [VObj] of
    headers and bodies) is outside what this embedding covers, and is taken
    as no object. *)
Definition validate_requestTimeoutConfig (cfg : loc) (h : Heap) : option Heap :=
  match get_prop h cfg "requestTimeoutConfig",
        get_prop h loc_defaultConfiguration "requestTimeoutConfig" with
  | VRef lt, VRef ld =>
      match h !! lt, h !! ld with
      | Some t, Some d => Some (<[lt := fill_missing requestTimeoutConfig_keys d t]> h)
      | _, _ => None
      end
  | _, _ => None
  end.

Definition valid_channelId (oc : gmap string JsVal) : bool :=
  match oc !! "channelId" with
  | Some (VStr c) => bool_decide (c ∈ ChannelId_values)
  | _ => false
  end.

(** [new SDK(omnichannelConfiguration, configuration)]. *)
Definition constructor (h : Heap) (oc : gmap string JsVal) (arg : ConfigArg)
  : Constructed :=
  let cfg := chosen_configuration h arg in
  let h1 := validate_configuration cfg h in
  match validate_requestTimeoutConfig cfg h1 with
  | None => Threw h1 typeError
  | Some h2 =>
      if negb (valid_channelId oc) then Threw h2 (newError "Invalid channelId")
      else
        match first_missing requiredOmnichannelConfigurationParameters oc with
        | Some key =>
            Threw h2 (newError ("Missing '" ++ key ++ "' in OmnichannelConfiguration"))
        | None =>
            Built h2
              {| omnichannelConfiguration := oc;
                 configuration := cfg;
                 liveChatVersion := VNum LiveChatVersion_V2;
                 sessionId := None;
                 ocUserAgent := get_prop h2 cfg "ocUserAgent" |}
        end
  end.

(** ** Session state: read and commit *)

(** [this.configuration.authCodeNonce], as every authenticated request
    presents it. *)
Definition read_authCodeNonce (this : SDK) (h : Heap) : JsVal :=
  get_prop h (configuration this) "authCodeNonce".

(** [setAuthCodeNonce(headers)]. *)
Definition setAuthCodeNonce (this : SDK) (headers : option (gmap string string))
    (h : Heap) : Heap :=
  match headers with
  | Some hs =>
      match hs !! "authcodenonce" with
      | Some v =>
          if truthy_string v
          then set_prop (configuration this) "authCodeNonce" (VStr v) h
          else h
      | None => h
      end
  | None => h
  end.

(** The session id update that follows [setAuthCodeNonce] in [getChatToken]
    and [createConversation]. *)
Definition setSessionId (headers : option (gmap string string)) (this : SDK) : SDK :=
  match headers with
  | Some hs =>
      match hs !! toLowerCase header_ocSessionId with
      | Some v =>
          if truthy_string v
          then {| omnichannelConfiguration := omnichannelConfiguration this;
                  configuration := configuration this;
                  liveChatVersion := liveChatVersion this;
                  sessionId := Some v;
                  ocUserAgent := ocUserAgent this |}
          else this
      | None => this
      end
  | None => this
  end.

(** The caller passed no configuration object of its own: none at all, a
    value that is not an object, or an object without keys. *)
Definition without_configuration (h : Heap) (arg : ConfigArg) : bool :=
  match arg with
  | ArgOmitted | ArgPrimitive => true
  | ArgObject l =>
      match h !! l with
      | Some o => Nat.eqb (size o) 0
      | None => false
      end
  end.

(** The caller's configuration object brings an [authCodeNonce] key. *)
Definition brings_nonce (h : Heap) (arg : ConfigArg) : bool :=
  match arg with
  | ArgOmitted | ArgPrimitive => false
  | ArgObject l =>
      match h !! l with
      | Some o => bool_decide (is_Some (o !! "authCodeNonce"))
      | None => false
      end
  end.

End Instance.

(** ** The retry policy engine and the request dispatcher *)

(** Modelled from the spec: the retry handler ([Utils/axiosRetryHandler]) is
    not under src/.  A policy is the spec's RetryPolicy: [maxAttempts],
    the fixed [backoffMillis], [retryOn429], the [headerOverwrites] and the
    optional [shouldRetry] predicate "overriding the default
    classification"; the predicate receives the error of the attempt, as the
    call sites in [SDK.ts] pass it. *)
Record RetryPolicy := mkPolicy {
  maxAttempts : Z;
  backoffMillis : Z;
  retryOn429 : bool;
  headerOverwrites : list string;
  shouldRetry : option (JsError -> bool)
}.

(** Modelled from the spec: the classified outcome of a failed attempt. *)
Inductive Failure :=
| Timeout
| RetryableServerError
| NonRetryableClientError
| NetworkError
| EmptyResponse.

(** Modelled from the spec: the per-call AttemptContext ([startedAt] only
    feeds telemetry and is left out). *)
Record AttemptContext := mkAttempt {
  attemptNumber : nat;
  lastFailure : option JsError
}.

(** Modelled from the spec: what [evaluate] answers. *)
Record Verdict := mkVerdict {
  retry : bool;
  delayMillis : Z;
  headersToRefresh : list string
}.

(** Modelled from the spec: [Utils/isExpectedAxiosError] is not under src/.
    It is what tells a timeout ("classified as Timeout distinctly from a
    generic NetworkError") from other failures: the error is the expected one
    when it is an error object whose [code] is the given one ([sessionClose]
    compares [error.code] itself). *)
Definition isExpectedAxiosError (error : Thrown) (expectedErrorCode : string)
  : bool :=
  match error with
  | ThrowError e => bool_decide (err_code e = Some expectedErrorCode)
  | ThrowResponse _ => false
  end.

(** Modelled from the spec: what one attempt gives, a response with a status
    the client accepts or an error. *)
Inductive AttemptResult :=
| AttemptOk (r : AxiosResponse)
| AttemptErr (e : JsError).

(** Modelled from the spec: the terminal states [Succeeded] and [Failed] of
    a call, with the number of attempts sent, the time waited between them
    and the session state left behind. *)
Inductive Outcome :=
| Succeeded (r : AxiosResponse)
| Failed (e : JsError).

Record Dispatched (S : Type) := mkDispatched {
  outcome : Outcome;
  attempts : nat;
  waited : Z;
  final : S
}.
Arguments mkDispatched {S}.
Arguments outcome {S}.
Arguments attempts {S}.
Arguments waited {S}.
Arguments final {S}.

Section Engine.
Context `{Imports}.

(** Modelled from the spec: "Failure: Timeout, RetryableServerError (5xx or
    configured 429), NonRetryableClientError (4xx other than configured
    exceptions), NetworkError".  An error that carries a response is
    classified by its status, one without by its code; the spec names no
    class for a status outside 4xx and 5xx, which is taken as not
    retryable. *)
Definition classify (policy : RetryPolicy) (e : JsError) : Failure :=
  match err_response e with
  | Some r =>
      if Z.leb 500 (status r) && Z.ltb (status r) 600 then RetryableServerError
      else if Z.eqb (status r) 429 then
        if retryOn429 policy then RetryableServerError
        else NonRetryableClientError
      else NonRetryableClientError
  | None =>
      if isExpectedAxiosError (ThrowError e) axiosTimeoutErrorCode then Timeout
      else NetworkError
  end.

(** Modelled from the spec: "retry on Timeout, NetworkError, and
    RetryableServerError; ... never retry NonRetryableClientError". *)
Definition retryable (f : Failure) : bool :=
  match f with
  | Timeout | NetworkError | RetryableServerError => true
  | NonRetryableClientError | EmptyResponse => false
  end.

(** Modelled from the spec: whether the policy asks for another attempt
    after [e], the ceiling apart; a [shouldRetry] predicate of the policy
    overrides the default classification. *)
Definition wants_retry (policy : RetryPolicy) (e : JsError) : bool :=
  match shouldRetry policy with
  | Some predicate => predicate e
  | None => retryable (classify policy e)
  end.

(** Modelled from the spec: [evaluate(attempt, failure, policy)] of the Retry
    Policy Engine. *)
Definition evaluate (attempt : AttemptContext) (failure : JsError)
    (policy : RetryPolicy) : Verdict :=
  {| retry :=
       if Z.leb (maxAttempts policy) (Z.of_nat (attemptNumber attempt)) then false
       else wants_retry policy failure;
     delayMillis := backoffMillis policy;
     headersToRefresh := headerOverwrites policy |}.

Section Dispatcher.
Context {S : Type}.
(** writing a response's headers back, and reading the value a header has
    in the current session state *)
Variable commit : option (gmap string string) -> S -> S.
Variable snapshot : S -> string -> option JsVal.
(** the remote side: the answer to attempt [n] made with the given headers *)
Variable transport : nat -> gmap string JsVal -> AttemptResult.
Variable policy : RetryPolicy.

(** Modelled from the spec: the headers named in [names] that the request
    carries are read again from the session state before the next attempt. *)
Definition refresh (names : list string) (st : S) (hdrs : gmap string JsVal)
  : gmap string JsVal :=
  fold_left
    (fun (acc : gmap string JsVal) (name : string) =>
       match acc !! name, snapshot st name with
       | Some _, Some v => <[name := v]> acc
       | _, _ => acc
       end)
    names hdrs.

Definition response_headers (e : JsError) : option (gmap string string) :=
  match err_response e with
  | Some r => headers r
  | None => None
  end.

(** Modelled from the spec: the attempt loop of the Request Dispatcher
    (steps 2 to 4).  [budget] bounds the retries still allowed; [execute]
    starts it at [maxAttempts], which the ceiling of [evaluate] never
    exceeds. *)
Fixpoint attempt_loop (budget : nat) (n : nat) (hdrs : gmap string JsVal)
    (st : S) (w : Z) : Dispatched S :=
  match transport n hdrs with
  | AttemptOk r =>
      {| outcome := Succeeded r; attempts := Datatypes.S n; waited := w;
         final := commit (headers r) st |}
  | AttemptErr e =>
      let st1 := commit (response_headers e) st in
      let v := evaluate {| attemptNumber := n; lastFailure := Some e |} e policy in
      if retry v then
        match budget with
        | O =>
            {| outcome := Failed e; attempts := Datatypes.S n; waited := w;
               final := st1 |}
        | Datatypes.S budget' =>
            attempt_loop budget' (Datatypes.S n)
              (refresh (headersToRefresh v) st1 hdrs) st1 (w + delayMillis v)
        end
      else
        {| outcome := Failed e; attempts := Datatypes.S n; waited := w;
           final := st1 |}
  end.

(** Modelled from the spec: one logical call, from attempt 0. *)
Definition execute (hdrs : gmap string JsVal) (st : S) : Dispatched S :=
  attempt_loop (Z.to_nat (maxAttempts policy)) 0 hdrs st 0.

(** Attempt [i] fails, whatever headers it is made with, with an error the
    policy asks to retry. *)
Definition fails_retryably (i : nat) : Prop :=
  forall hs, exists e, transport i hs = AttemptErr e /\ wants_retry policy e = true.

End Dispatcher.
End Engine.

(** ** The operations of [SDK.ts] *)

(** Modelled from the spec: [Common/Constants] is not under src/; the
    "NoContent" status of a reconnect request is HTTP 204. *)
Definition noContentStatusCode : Z := 204.

(** The optional parameters the operations below read (the fields of
    [IGetChatTokenOptionalParams], [ISessionInitOptionalParams] and
    [IValidateAuthChatRecordOptionalParams] that reach the request headers
    or the handlers; [locale] is [initContext.locale]). *)
Record OptionalParams := mkParams {
  reconnectId : option string;
  authenticatedUserToken : option string;
  locale : option string;
  getContext : bool
}.

(** What a call leaves behind: the promise, the store, the instance and
    the number of attempts sent. *)
Record OpResult := mkOpResult {
  settled : Settlement;
  heap_after : Heap;
  this_after : SDK;
  dispatched : nat
}.

Section Operations.
Context `{Imports}.

Definition setSessionIdHeader (sid : option string) (hs : gmap string JsVal)
  : gmap string JsVal :=
  match sid with
  | Some s => if truthy_string s then <[header_ocSessionId := VStr s]> hs else hs
  | None => hs
  end.

Definition setRequestIdHeader (requestId : string) (hs : gmap string JsVal)
  : gmap string JsVal :=
  if truthy_string requestId then <[header_requestId := VStr requestId]> hs else hs.

Definition setCorrelationIdInHeader (correlationId : string)
    (hs : gmap string JsVal) : gmap string JsVal :=
  if truthy_string correlationId
  then <[header_correlationId := VStr correlationId]> hs
  else hs.

Definition addDefaultHeaders (this : SDK) (requestId : string)
    (hs : gmap string JsVal) : gmap string JsVal :=
  setCorrelationIdInHeader requestId
    (addOcUserAgentHeader (ocUserAgent this)
       (setSessionIdHeader (sessionId this) hs)).

(** The two headers of an authenticated request. *)
Definition add_auth_headers (this : SDK) (h : Heap) (token : option string)
    (hs : gmap string JsVal) : gmap string JsVal :=
  match token with
  | Some t =>
      if truthy_string t
      then <[header_authCodeNonce := read_authCodeNonce this h]>
             (<[header_authenticatedUserToken := VStr t]> hs)
      else hs
  | None => hs
  end.

(** Modelled from the spec: the Session State Store seen by the dispatcher.
    The commit of an operation is the write-back its handler in [SDK.ts]
    performs: [setAuthCodeNonce] and the session id in [getChatToken] and
    [createConversation], [setAuthCodeNonce] alone in
    [validateAuthChatRecord], nothing in [getChatConfig].  The snapshot reads
    the two values back under their header names.  [SDK.ts] itself calls
    [setAuthCodeNonce] only after the awaited request has succeeded, and its
    [catch] blocks never do: that the headers of a failed answer are
    committed as well is step 3 of the spec's dispatcher ("on any response,
    success or failure"), and the handlers below commit the headers of the
    successful answer once more, as the code does. *)
Definition commit_session (hs : option (gmap string string))
    (st : Heap * SDK) : Heap * SDK :=
  (setAuthCodeNonce (snd st) hs (fst st), setSessionId hs (snd st)).

Definition commit_nonce (hs : option (gmap string string))
    (st : Heap * SDK) : Heap * SDK :=
  (setAuthCodeNonce (snd st) hs (fst st), snd st).

Definition commit_nothing (hs : option (gmap string string))
    (st : Heap * SDK) : Heap * SDK := st.

Definition snapshot_session (st : Heap * SDK) (name : string) : option JsVal :=
  if bool_decide (name = header_authCodeNonce)
  then Some (read_authCodeNonce (snd st) (fst st))
  else if bool_decide (name = header_ocSessionId)
       then VStr <$> sessionId (snd st)
       else None.

(** [this.configuration.waitTimeBetweenRetriesConfig[operation]]. *)
Definition waitTime (this : SDK) (h : Heap) (operation : string) : Z :=
  match get_prop h (configuration this) "waitTimeBetweenRetriesConfig" with
  | VRef l => num_or 0 (get_prop h l operation)
  | _ => 0
  end.

Definition maxRequestRetriesOnFailure (this : SDK) (h : Heap) : Z :=
  num_or 0 (get_prop h (configuration this) "maxRequestRetriesOnFailure").

(** The options [getChatToken] hands to the retry handler. *)
Definition getChatToken_policy (this : SDK) (h : Heap) (currentRetryCount : Z)
  : RetryPolicy :=
  {| maxAttempts :=
       if Z.ltb (maxRequestRetriesOnFailure this h) currentRetryCount
       then currentRetryCount
       else maxRequestRetriesOnFailure this h;
     backoffMillis := waitTime this h "getChatToken";
     retryOn429 :=
       is_true_val (get_prop h (configuration this) "getChatTokenRetryOn429");
     headerOverwrites := [header_authCodeNonce];
     shouldRetry := None |}.

(** The options [sessionInit] and [createConversation] hand to it: no
    [retryOn429] field, a [shouldRetry] closed over [retryOn429 = true]. *)
Definition sessionInit_policy (this : SDK) (h : Heap) : RetryPolicy :=
  {| maxAttempts := maxRequestRetriesOnFailure this h;
     backoffMillis := waitTime this h "sessionInit";
     retryOn429 := false;
     headerOverwrites := [header_authCodeNonce];
     shouldRetry := Some (fun error => sessionInitRetryHandler error true) |}.

(** The options of [validateAuthChatRecord] and of [getChatConfig]. *)
Definition validateAuthChatRecord_policy (this : SDK) (h : Heap) : RetryPolicy :=
  {| maxAttempts := maxRequestRetriesOnFailure this h;
     backoffMillis := waitTime this h "validateAuthChatRecord";
     retryOn429 := false;
     headerOverwrites := [header_authCodeNonce];
     shouldRetry := None |}.

Definition getChatConfig_policy (this : SDK) (h : Heap) : RetryPolicy :=
  {| maxAttempts := maxRequestRetriesOnFailure this h;
     backoffMillis := waitTime this h "getChatConfig";
     retryOn429 := false;
     headerOverwrites := [];
     shouldRetry := None |}.

(** The [catch] block shared by the promise-based operations: a timeout is
    rejected with the fixed message, and the second [reject] is then
    ignored. *)
Definition catch_with_timeout (error : Thrown) (p : Settlement) : Settlement :=
  let p1 :=
    if isExpectedAxiosError error axiosTimeoutErrorCode
    then reject (ThrowError (newError HTTPTimeOutErrorMessage)) p
    else p in
  reject error p1.

(** *** getChatToken *)

Definition getChatToken_headers (this : SDK) (h : Heap) (requestId : string)
    (params : OptionalParams) : gmap string JsVal :=
  add_auth_headers this h (authenticatedUserToken params)
    (addDefaultHeaders this requestId (default ∅ (h !! loc_defaultHeaders))).

(** The body of [try] after the awaited response. *)
Definition getChatToken_then (requestId : string) (params : OptionalParams)
    (response : AxiosResponse) (st : Heap * SDK) : Settlement * (Heap * SDK) :=
  let h1 := setAuthCodeNonce (snd st) (headers response) (fst st) in
  let this1 := setSessionId (headers response) (snd st) in
  let p :=
    match data response with
    | DataObject o =>
        if Nat.eqb (size o) 0
        then reject (ThrowError (newError "Empty data received from getChatToken")) Pending
        else resolve (DataObject (<["requestId" := VStr requestId]> o)) Pending
    | DataNone =>
        if truthy_opt (reconnectId params)
           && Z.eqb (status response) noContentStatusCode
        then reject (ThrowResponse response) Pending
        else Pending
    end in
  (p, (h1, this1)).

(** The awaited [axiosInstance(options)]: the request with its headers,
    which are written into the shared [Constants.defaultHeaders] object. *)
Definition getChatToken_dispatch
    (transport : nat -> gmap string JsVal -> AttemptResult)
    (this : SDK) (h : Heap) (requestId : string) (params : OptionalParams)
    (currentRetryCount : Z) : Dispatched (Heap * SDK) :=
  let hdrs := getChatToken_headers this h requestId params in
  let h1 := <[loc_defaultHeaders := hdrs]> h in
  execute commit_session snapshot_session transport
    (getChatToken_policy this h1 currentRetryCount) hdrs (h1, this).

Definition getChatToken (transport : nat -> gmap string JsVal -> AttemptResult)
    (this : SDK) (h : Heap) (requestId : string) (params : OptionalParams)
    (currentRetryCount : Z) (uuid : string) : OpResult :=
  if Z.ltb currentRetryCount 0 then
    {| settled := Rejected (ThrowError (newError "Invalid currentRetryCount"));
       heap_after := h; this_after := this; dispatched := 0 |}
  else
    let requestId := if truthy_string requestId then requestId else uuid in
    let d := getChatToken_dispatch transport this h requestId params
               currentRetryCount in
    match outcome d with
    | Succeeded response =>
        let r := getChatToken_then requestId params response (final d) in
        {| settled := fst r; heap_after := fst (snd r);
           this_after := snd (snd r); dispatched := attempts d |}
    | Failed error =>
        {| settled := catch_with_timeout (ThrowError error) Pending;
           heap_after := fst (final d); this_after := snd (final d);
           dispatched := attempts d |}
    end.

End Operations.

Section MoreOperations.
Context `{Imports}.

(** *** createConversation *)

Definition createConversation_headers (this : SDK) (h : Heap)
    (requestId : string) (params : OptionalParams) : gmap string JsVal :=
  setRequestIdHeader requestId
    (addDefaultHeaders this requestId
       (add_auth_headers this h (authenticatedUserToken params)
          (default ∅ (h !! loc_defaultHeaders)))).

(** The locale the request carries: the default one when none is given. *)
Definition effective_locale (params : OptionalParams) : string :=
  if truthy_opt (locale params) then default "" (locale params) else defaultLocale.

(** The body of [try] after the awaited response: what it returns, or what
    it throws. *)
Definition createConversation_try (requestId : string) (response : AxiosResponse)
    (st : Heap * SDK) : (ResponseData + Thrown) * (Heap * SDK) :=
  let h1 := setAuthCodeNonce (snd st) (headers response) (fst st) in
  let this1 := setSessionId (headers response) (snd st) in
  let empty := ThrowError (newError "Empty data received from getChatToken") in
  let r :=
    match data response with
    | DataObject o =>
        if Nat.eqb (size o) 0 then inr empty
        else inl (DataObject (<["requestId" := VStr requestId]> o))
    | DataNone => inr empty
    end in
  (r, (h1, this1)).

(** The [catch] block of [createConversation]: it throws again. *)
Definition createConversation_catch (error : Thrown) : Settlement :=
  if isExpectedAxiosError error axiosTimeoutErrorCode
  then Rejected (ThrowError (newError HTTPTimeOutErrorMessage))
  else Rejected error.

Definition createConversation_dispatch
    (transport : nat -> gmap string JsVal -> AttemptResult)
    (this : SDK) (h : Heap) (requestId : string) (params : OptionalParams)
  : Dispatched (Heap * SDK) :=
  execute commit_session snapshot_session transport (sessionInit_policy this h)
    (createConversation_headers this h requestId params) (h, this).

Definition createConversation
    (transport : nat -> gmap string JsVal -> AttemptResult)
    (this : SDK) (h : Heap) (requestId : string) (params : OptionalParams)
  : OpResult :=
  if getContext params && negb window_document then
    {| settled :=
         Rejected (ThrowError (newError "getContext is only supported on web browsers"));
       heap_after := h; this_after := this; dispatched := 0 |}
  else if truthy_string (effective_locale params)
          && negb (bool_decide (effective_locale params ∈ supportedLocales)) then
    {| settled :=
         Rejected (ThrowError
           (newError ("Unsupported locale: '" ++ effective_locale params ++ "'")));
       heap_after := h; this_after := this; dispatched := 0 |}
  else
    let d := createConversation_dispatch transport this h requestId params in
    match outcome d with
    | Succeeded response =>
        let r := createConversation_try requestId response (final d) in
        {| settled :=
             match fst r with
             | inl v => Resolved v
             | inr error => createConversation_catch error
             end;
           heap_after := fst (snd r); this_after := snd (snd r);
           dispatched := attempts d |}
    | Failed error =>
        {| settled := createConversation_catch (ThrowError error);
           heap_after := fst (final d); this_after := snd (final d);
           dispatched := attempts d |}
    end.

(** *** validateAuthChatRecord *)

Definition validateAuthChatRecord_headers (this : SDK) (h : Heap)
    (requestId : string) (params : OptionalParams) : gmap string JsVal :=
  addDefaultHeaders this requestId
    (add_auth_headers this h (authenticatedUserToken params)
       (default ∅ (h !! loc_defaultHeaders))).

Definition authChatExist (d : ResponseData) : bool :=
  match d with
  | DataObject o => is_true_val (default VUndefined (o !! "authChatExist"))
  | DataNone => false
  end.

Definition validateAuthChatRecord_then (response : AxiosResponse) : Settlement :=
  if authChatExist (data response)
  then resolve (data response) Pending
  else reject
         (ThrowError (newError
            "Validate Auth Chat Record Failed. Record is not found or request is not authorized"))
         Pending.

(** The [catch] block: the timeout message first, then the 404 carve-out
    ("backward compatibility") or the error itself. *)
Definition validateAuthChatRecord_catch (error : Thrown) : Settlement :=
  let p1 :=
    if isExpectedAxiosError error axiosTimeoutErrorCode
    then reject (ThrowError (newError HTTPTimeOutErrorMessage)) Pending
    else Pending in
  if bool_decide (toString error = "Error: Request failed with status code 404")
  then resolve (DataObject ∅) p1
  else reject error p1.

Definition validateAuthChatRecord_dispatch
    (transport : nat -> gmap string JsVal -> AttemptResult)
    (this : SDK) (h : Heap) (requestId : string) (params : OptionalParams)
  : Dispatched (Heap * SDK) :=
  let hdrs := validateAuthChatRecord_headers this h requestId params in
  let h1 := <[loc_defaultHeaders := hdrs]> h in
  execute commit_nonce snapshot_session transport
    (validateAuthChatRecord_policy this h1) hdrs (h1, this).

Definition validateAuthChatRecord
    (transport : nat -> gmap string JsVal -> AttemptResult)
    (this : SDK) (h : Heap) (requestId : string) (params : OptionalParams)
  : OpResult :=
  let d := validateAuthChatRecord_dispatch transport this h requestId params in
  match outcome d with
  | Succeeded response =>
      {| settled := validateAuthChatRecord_then response;
         heap_after := setAuthCodeNonce (snd (final d)) (headers response) (fst (final d));
         this_after := snd (final d); dispatched := attempts d |}
  | Failed error =>
      {| settled := validateAuthChatRecord_catch (ThrowError error);
         heap_after := fst (final d); this_after := snd (final d);
         dispatched := attempts d |}
  end.

(** *** getChatConfig *)

Definition getChatConfig_headers (this : SDK) (requestId : string)
    (bypassCache : bool) : gmap string JsVal :=
  let hs := addDefaultHeaders this requestId ∅ in
  if bypassCache then hs ∪ bypassCacheHeaders else hs.

Definition date_header (response : AxiosResponse) : list (string * string) :=
  match headers response with
  | Some hs =>
      match hs !! "date" with
      | Some d => if truthy_string d then [("date", d)] else []
      | None => []
      end
  | None => []
  end.

Definition set_liveChatVersion (v : JsVal) (this : SDK) : SDK :=
  {| omnichannelConfiguration := omnichannelConfiguration this;
     configuration := configuration this;
     liveChatVersion := v;
     sessionId := sessionId this;
     ocUserAgent := ocUserAgent this |}.

Definition getChatConfig_dispatch
    (transport : nat -> gmap string JsVal -> AttemptResult)
    (this : SDK) (h : Heap) (requestId : string) (bypassCache : bool)
  : Dispatched (Heap * SDK) :=
  execute commit_nothing snapshot_session transport (getChatConfig_policy this h)
    (getChatConfig_headers this requestId bypassCache) (h, this).

Definition getChatConfig (transport : nat -> gmap string JsVal -> AttemptResult)
    (this : SDK) (h : Heap) (requestId : string) (bypassCache : bool)
    (uuid : string) : OpResult :=
  let requestId := if truthy_string requestId then requestId else uuid in
  let d := getChatConfig_dispatch transport this h requestId bypassCache in
  match outcome d with
  | Succeeded response =>
      match data response with
      | DataObject o =>
          let version := default VUndefined (o !! "LiveChatVersion") in
          {| settled :=
               Resolved (DataObject (<["headers" := VObj (date_header response)]> o));
             heap_after := fst (final d);
             this_after :=
               if truthy version then set_liveChatVersion version (snd (final d))
               else snd (final d);
             dispatched := attempts d |}
      | DataNone =>
          {| settled := Rejected (ThrowError headersTypeError);
             heap_after := fst (final d); this_after := snd (final d);
             dispatched := attempts d |}
      end
  | Failed error =>
      {| settled := Rejected (ThrowError error);
         heap_after := fst (final d); this_after := snd (final d);
         dispatched := attempts d |}
  end.

End MoreOperations.

(** ** A concrete environment

    Values for the imports, a store as it is right after loading, and a few
    remote sides; the examples below run the operations on them. *)
Module Example.

Definition imports : Imports :=
  {| ChannelId_values := ["lcw"];
     requiredOmnichannelConfigurationParameters := ["orgUrl"; "orgId"; "widgetId"];
     LiveChatVersion_V2 := 2;
     axiosTimeoutErrorCode := "ECONNABORTED";
     ClientHTTPTimeoutErrorName := "ClientHTTPTimeoutError";
     ClientHTTPTimeoutErrorMessage := "Server took too long to respond";
     header_authCodeNonce := "AuthCodeNonce";
     header_authenticatedUserToken := "AuthenticatedUserToken";
     header_ocSessionId := "Oc-Sessionid";
     header_correlationId := "X-Correlation-Id";
     header_requestId := "RequestId";
     bypassCacheHeaders := {[ "Cache-Control" := VStr "no-cache" ]};
     defaultLocale := "en-us";
     supportedLocales := ["en-us"; "fr-fr"];
     addOcUserAgentHeader := fun _ hs => hs;
     sessionInitRetryHandler := fun _ _ => true;
     typeErrorMessage :=
       "Cannot read properties of undefined (reading 'hasOwnProperty')";
     headersTypeErrorMessage := "Cannot create property 'headers' on string ''";
     window_document := true |}.

Definition uuid : string := "123e4567-e89b-42d3-a456-426614174000".

Definition waitTimes : gmap string JsVal :=
  list_to_map
    [ ("getChatToken", VNum 1000); ("sessionInit", VNum 1000);
      ("validateAuthChatRecord", VNum 1000); ("getChatConfig", VNum 1000) ].

Definition store : Heap := classLoad uuid waitTimes ∅.

Definition omnichannel : gmap string JsVal :=
  list_to_map
    [ ("orgUrl", VStr "https://org.example"); ("orgId", VStr "org");
      ("widgetId", VStr "widget"); ("channelId", VStr "lcw") ].

(** An instance on the shared default configuration. *)
Definition sdk : SDK :=
  {| omnichannelConfiguration := omnichannel;
     configuration := loc_defaultConfiguration;
     liveChatVersion := VNum 2;
     sessionId := None;
     ocUserAgent := VStrs [] |}.

(** A caller's configuration object that brings its own nonce. *)
Definition loc_caller : loc := 10%nat.
Definition store_with_caller : Heap :=
  <[loc_caller := {[ "authCodeNonce" := VStr "caller01" ]}]> store.

Definition no_params : OptionalParams :=
  {| reconnectId := None; authenticatedUserToken := None;
     locale := None; getContext := false |}.

Definition reconnect_params : OptionalParams :=
  {| reconnectId := Some "reconnect-1"; authenticatedUserToken := None;
     locale := None; getContext := false |}.

Definition response (st : Z) (d : ResponseData) : AxiosResponse :=
  {| status := st; data := d; headers := Some ∅ |}.

Definition http_error (st : Z) : JsError :=
  {| err_name := "Error";
     err_message :=
       match st with
       | 404 => "Request failed with status code 404"
       | 429 => "Request failed with status code 429"
       | _ => "Request failed with status code 500"
       end;
     err_code := Some "ERR_BAD_RESPONSE";
     err_response := Some (response st DataNone) |}.

Definition timeout_of (message : string) : JsError :=
  {| err_name := "Error"; err_message := message;
     err_code := Some "ECONNABORTED"; err_response := None |}.

Definition timeout_error : JsError := timeout_of "timeout of 15000ms exceeded".
Definition config_timeout_error : JsError :=
  timeout_of "timeout of 120000ms exceeded".

(** Remote sides that give every attempt the same answer. *)
Definition always (r : AttemptResult) : nat -> gmap string JsVal -> AttemptResult :=
  fun _ _ => r.

(** A remote side whose first answer is a 500 and whose later ones are [a]. *)
Definition after_a_failure (a : AttemptResult)
  : nat -> gmap string JsVal -> AttemptResult :=
  fun n _ => if Nat.eqb n 0 then AttemptErr (http_error 500) else a.

(** Two 429 answers, then a token. *)
Definition token_body : gmap string JsVal := {[ "Token" := VStr "t" ]}.
Definition busy_twice : nat -> gmap string JsVal -> AttemptResult :=
  fun n _ =>
    if Nat.ltb n 2 then AttemptErr (http_error 429)
    else AttemptOk (response 200 (DataObject token_body)).

(** A remote side that rotates the nonce to "n2" with every answer and
    accepts only a request that presents "n2". *)
Definition rotated : gmap string string := {[ "authcodenonce" := "n2" ]}.
Definition wants_n2 : nat -> gmap string JsVal -> AttemptResult :=
  fun _ hs =>
    match hs !! "AuthCodeNonce" with
    | Some (VStr "n2") =>
        AttemptOk {| status := 200; data := DataObject token_body;
                     headers := Some rotated |}
    | _ =>
        AttemptErr {| err_name := "Error";
                      err_message := "Request failed with status code 500";
                      err_code := Some "ERR_BAD_RESPONSE";
                      err_response :=
                        Some {| status := 500; data := DataNone;
                                headers := Some rotated |} |}
    end.

Definition auth_params : OptionalParams :=
  {| reconnectId := None; authenticatedUserToken := Some "jwt";
     locale := None; getContext := false |}.

Definition retry_on_429 : RetryPolicy :=
  {| maxAttempts := 2; backoffMillis := 10; retryOn429 := true;
     headerOverwrites := []; shouldRetry := None |}.

Definition default_policy (n : Z) : RetryPolicy :=
  {| maxAttempts := n; backoffMillis := 10; retryOn429 := false;
     headerOverwrites := []; shouldRetry := None |}.

Definition is_built (c : Constructed) : bool :=
  match c with
  | Built _ _ => true
  | Threw _ _ => false
  end.

(** The nonce an instance presents once it is built. *)
Definition nonce_of (c : Constructed) : JsVal :=
  match c with
  | Built h this => read_authCodeNonce this h
  | Threw _ _ => VUndefined
  end.

End Example.

(** ** More of [SDK.ts]

    The operations that stand beside the ones above: those that send their
    request through a plain [axios.create()] without a retry handler, and
    further ones that share the [try]/[catch] pattern. *)

(** Two more imported constants, which only [sendTypingIndicator] reads. *)
Class MoreImports := {
  (** [OmnichannelHTTPHeaders.organizationId] *)
  header_organizationId : string;
  (** [Constants.customerDisplayName] *)
  header_customerDisplayName : string
}.

Section FurtherOperations.
Context `{Imports}.

(** [axiosInstance(options)] on an instance without a retry handler: the one
    request and its answer. *)
Definition request_once (transport : nat -> gmap string JsVal -> AttemptResult)
    (hdrs : gmap string JsVal) : Outcome :=
  match transport 0%nat hdrs with
  | AttemptOk r => Succeeded r
  | AttemptErr e => Failed e
  end.

(** [if (data) { resolve(data); return; } resolve();] *)
Definition resolve_data_or_nothing (d : ResponseData) : Settlement :=
  match d with
  | DataObject o => resolve (DataObject o) Pending
  | DataNone => resolve DataNone Pending
  end.

(** *** getReconnectableChats *)

Definition getReconnectableChats_headers (this : SDK) (h : Heap)
    (token requestId : string) : gmap string JsVal :=
  addDefaultHeaders this requestId
    (<[header_authCodeNonce := read_authCodeNonce this h]>
       (<[header_authenticatedUserToken := VStr token]>
          (default ∅ (h !! loc_defaultHeaders)))).

Definition getReconnectableChats
    (transport : nat -> gmap string JsVal -> AttemptResult)
    (this : SDK) (h : Heap) (token requestId : string) : OpResult :=
  let hdrs := getReconnectableChats_headers this h token requestId in
  let h1 := <[loc_defaultHeaders := hdrs]> h in
  match request_once transport hdrs with
  | Succeeded response =>
      {| settled := resolve_data_or_nothing (data response);
         heap_after := setAuthCodeNonce this (headers response) h1;
         this_after := this; dispatched := 1 |}
  | Failed error =>
      {| settled := catch_with_timeout (ThrowError error) Pending;
         heap_after := h1; this_after := this; dispatched := 1 |}
  end.

(** *** getReconnectAvailability *)

Definition getReconnectAvailability
    (transport : nat -> gmap string JsVal -> AttemptResult)
    (this : SDK) (h : Heap) (requestId : string) : OpResult :=
  let hdrs := addDefaultHeaders this requestId (default ∅ (h !! loc_defaultHeaders)) in
  let h1 := <[loc_defaultHeaders := hdrs]> h in
  match request_once transport hdrs with
  | Succeeded response =>
      {| settled := resolve_data_or_nothing (data response);
         heap_after := h1; this_after := this; dispatched := 1 |}
  | Failed error =>
      {| settled := catch_with_timeout (ThrowError error) Pending;
         heap_after := h1; this_after := this; dispatched := 1 |}
  end.

(** *** sessionInit *)

Definition sessionInit_dispatch
    (transport : nat -> gmap string JsVal -> AttemptResult)
    (this : SDK) (h : Heap) (requestId : string) (params : OptionalParams)
  : Dispatched (Heap * SDK) :=
  execute commit_nonce snapshot_session transport (sessionInit_policy this h)
    (createConversation_headers this h requestId params) (h, this).

Definition sessionInit (transport : nat -> gmap string JsVal -> AttemptResult)
    (this : SDK) (h : Heap) (requestId : string) (params : OptionalParams)
  : OpResult :=
  if getContext params && negb window_document then
    {| settled :=
         Rejected (ThrowError (newError "getContext is only supported on web browsers"));
       heap_after := h; this_after := this; dispatched := 0 |}
  else if truthy_string (effective_locale params)
          && negb (bool_decide (effective_locale params ∈ supportedLocales)) then
    {| settled :=
         Rejected (ThrowError
           (newError ("Unsupported locale: '" ++ effective_locale params ++ "'")));
       heap_after := h; this_after := this; dispatched := 0 |}
  else
    let d := sessionInit_dispatch transport this h requestId params in
    match outcome d with
    | Succeeded response =>
        {| settled := resolve DataNone Pending;
           heap_after :=
             setAuthCodeNonce (snd (final d)) (headers response) (fst (final d));
           this_after := snd (final d); dispatched := attempts d |}
    | Failed error =>
        {| settled := catch_with_timeout (ThrowError error) Pending;
           heap_after := fst (final d); this_after := snd (final d);
           dispatched := attempts d |}
    end.

(** *** getAgentAvailability *)

Definition getAgentAvailability_policy (this : SDK) (h : Heap) : RetryPolicy :=
  {| maxAttempts := maxRequestRetriesOnFailure this h;
     backoffMillis := waitTime this h "getAgentAvailability";
     retryOn429 := false;
     headerOverwrites := [header_authCodeNonce];
     shouldRetry := None |}.

Definition getAgentAvailability_dispatch
    (transport : nat -> gmap string JsVal -> AttemptResult)
    (this : SDK) (h : Heap) (requestId : string) (params : OptionalParams)
  : Dispatched (Heap * SDK) :=
  let hdrs := validateAuthChatRecord_headers this h requestId params in
  let h1 := <[loc_defaultHeaders := hdrs]> h in
  execute commit_nonce snapshot_session transport
    (getAgentAvailability_policy this h) hdrs (h1, this).

(** The request headers are the ones of [validateAuthChatRecord] (the
    shared object, the two headers of an authenticated request, then the
    default ones), and they are written before the context and the locale
    are checked. *)
Definition getAgentAvailability
    (transport : nat -> gmap string JsVal -> AttemptResult)
    (this : SDK) (h : Heap) (requestId : string) (params : OptionalParams)
  : OpResult :=
  let hdrs := validateAuthChatRecord_headers this h requestId params in
  let h1 := <[loc_defaultHeaders := hdrs]> h in
  if getContext params && negb window_document then
    {| settled :=
         Rejected (ThrowError (newError "getContext is only supported on web browsers"));
       heap_after := h1; this_after := this; dispatched := 0 |}
  else if truthy_string (effective_locale params)
          && negb (bool_decide (effective_locale params ∈ supportedLocales)) then
    {| settled :=
         Rejected (ThrowError
           (newError ("Unsupported locale: '" ++ effective_locale params ++ "'")));
       heap_after := h1; this_after := this; dispatched := 0 |}
  else
    let d := getAgentAvailability_dispatch transport this h requestId params in
    match outcome d with
    | Succeeded response =>
        {| settled :=
             match data response with
             | DataObject o => resolve (DataObject o) Pending
             | DataNone => Pending
             end;
           heap_after :=
             setAuthCodeNonce (snd (final d)) (headers response) (fst (final d));
           this_after := snd (final d); dispatched := attempts d |}
    | Failed error =>
        {| settled := catch_with_timeout (ThrowError error) Pending;
           heap_after := fst (final d); this_after := snd (final d);
           dispatched := attempts d |}
    end.

(** *** sessionClose and submitPostChatResponse *)

Definition sessionClose_policy (this : SDK) (h : Heap) : RetryPolicy :=
  {| maxAttempts := maxRequestRetriesOnFailure this h;
     backoffMillis := waitTime this h "sessionClose";
     retryOn429 := false;
     headerOverwrites := [header_authCodeNonce];
     shouldRetry := None |}.

(** The [catch] block of [sessionClose], which looks at [error.code]
    itself. *)
Definition sessionClose_catch (error : JsError) : Settlement :=
  let p1 :=
    if bool_decide (err_code error = Some axiosTimeoutErrorCode)
    then reject (ThrowError (newError HTTPTimeOutErrorMessage)) Pending
    else Pending in
  reject (ThrowError error) p1.

Definition sessionClose_dispatch
    (transport : nat -> gmap string JsVal -> AttemptResult)
    (this : SDK) (h : Heap) (requestId : string) (params : OptionalParams)
  : Dispatched (Heap * SDK) :=
  let hdrs := validateAuthChatRecord_headers this h requestId params in
  let h1 := <[loc_defaultHeaders := hdrs]> h in
  execute commit_nonce snapshot_session transport (sessionClose_policy this h)
    hdrs (h1, this).

Definition sessionClose (transport : nat -> gmap string JsVal -> AttemptResult)
    (this : SDK) (h : Heap) (requestId : string) (params : OptionalParams)
  : OpResult :=
  let d := sessionClose_dispatch transport this h requestId params in
  match outcome d with
  | Succeeded response =>
      {| settled := resolve DataNone Pending;
         heap_after :=
           setAuthCodeNonce (snd (final d)) (headers response) (fst (final d));
         this_after := snd (final d); dispatched := attempts d |}
  | Failed error =>
      {| settled := sessionClose_catch error;
         heap_after := fst (final d); this_after := snd (final d);
         dispatched := attempts d |}
  end.

Definition submitPostChatResponse_policy (this : SDK) (h : Heap) : RetryPolicy :=
  {| maxAttempts := maxRequestRetriesOnFailure this h;
     backoffMillis := waitTime this h "submitPostChatResponse";
     retryOn429 := false;
     headerOverwrites := [header_authCodeNonce];
     shouldRetry := None |}.

Definition submitPostChatResponse_dispatch
    (transport : nat -> gmap string JsVal -> AttemptResult)
    (this : SDK) (h : Heap) (requestId : string) (params : OptionalParams)
  : Dispatched (Heap * SDK) :=
  let hdrs := getChatToken_headers this h requestId params in
  let h1 := <[loc_defaultHeaders := hdrs]> h in
  execute commit_nonce snapshot_session transport
    (submitPostChatResponse_policy this h) hdrs (h1, this).

(** The request headers are built as in [getChatToken]: the default ones
    first, then the two of an authenticated request. *)
Definition submitPostChatResponse
    (transport : nat -> gmap string JsVal -> AttemptResult)
    (this : SDK) (h : Heap) (requestId : string) (params : OptionalParams)
  : OpResult :=
  let d := submitPostChatResponse_dispatch transport this h requestId params in
  match outcome d with
  | Succeeded response =>
      {| settled := resolve DataNone Pending;
         heap_after :=
           setAuthCodeNonce (snd (final d)) (headers response) (fst (final d));
         this_after := snd (final d); dispatched := attempts d |}
  | Failed error =>
      {| settled := catch_with_timeout (ThrowError error) Pending;
         heap_after := fst (final d); this_after := snd (final d);
         dispatched := attempts d |}
  end.

(** *** getLcwFcsDetails *)

Definition getLcwFcsDetails_dispatch
    (transport : nat -> gmap string JsVal -> AttemptResult)
    (this : SDK) (h : Heap) : Dispatched (Heap * SDK) :=
  execute commit_nothing snapshot_session transport (getChatConfig_policy this h)
    (addOcUserAgentHeader (ocUserAgent this) ∅) (h, this).

Definition getLcwFcsDetails
    (transport : nat -> gmap string JsVal -> AttemptResult)
    (this : SDK) (h : Heap) : OpResult :=
  let d := getLcwFcsDetails_dispatch transport this h in
  match outcome d with
  | Succeeded response =>
      {| settled := Resolved (data response);
         heap_after := fst (final d); this_after := snd (final d);
         dispatched := attempts d |}
  | Failed error =>
      {| settled := Rejected (ThrowError error);
         heap_after := fst (final d); this_after := snd (final d);
         dispatched := attempts d |}
  end.

(** What the operations assume of the imported header names and of
    [addOcUserAgentHeader]: the five names differ, and the user agent header
    is none of them. *)
Definition header_names : list string :=
  [ header_authCodeNonce; header_authenticatedUserToken; header_ocSessionId;
    header_correlationId; header_requestId ].

Definition headers_independent : Prop :=
  NoDup header_names
  /\ forall ua hs name,
       name ∈ header_names -> addOcUserAgentHeader ua hs !! name = hs !! name.

End FurtherOperations.

Section TypingIndicator.
Context `{Imports} `{MoreImports}.

Definition sendTypingIndicator_headers (this : SDK) (h : Heap)
    (requestId : string) (customerDisplayName : option string)
  : gmap string JsVal :=
  let base :=
    <[header_organizationId :=
        default VUndefined (omnichannelConfiguration this !! "orgId")]>
      (default ∅ (h !! loc_defaultHeaders)) in
  addDefaultHeaders this requestId
    (match customerDisplayName with
     | Some name =>
         if truthy_string name
         then <[header_customerDisplayName := VStr name]> base
         else base
     | None => base
     end).

(** [!currentLiveChatVersion || currentLiveChatVersion !== LiveChatVersion.V2] *)
Definition not_v2 (currentLiveChatVersion : Z) : bool :=
  Z.eqb currentLiveChatVersion 0
  || negb (Z.eqb currentLiveChatVersion LiveChatVersion_V2).

Definition sendTypingIndicator
    (transport : nat -> gmap string JsVal -> AttemptResult)
    (this : SDK) (h : Heap) (requestId : string) (currentLiveChatVersion : Z)
    (customerDisplayName : option string) : OpResult :=
  if not_v2 currentLiveChatVersion then
    {| settled := Resolved DataNone;
       heap_after := h; this_after := this; dispatched := 0 |}
  else if not_v2 currentLiveChatVersion then
    {| settled :=
         Rejected (ThrowError (newError "Typing indicator is only supported on v2"));
       heap_after := h; this_after := this; dispatched := 0 |}
  else
    let hdrs := sendTypingIndicator_headers this h requestId customerDisplayName in
    let h1 := <[loc_defaultHeaders := hdrs]> h in
    match request_once transport hdrs with
    | Succeeded response =>
        {| settled := resolve DataNone Pending;
           heap_after := h1; this_after := this; dispatched := 1 |}
    | Failed error =>
        {| settled := catch_with_timeout (ThrowError error) Pending;
           heap_after := h1; this_after := this; dispatched := 1 |}
    end.

End TypingIndicator.

(** *** The constructor, once more *)

(** The store the constructor leaves, whether it built the instance or
    threw. *)
Definition store_of (c : Constructed) : Heap :=
  match c with
  | Built h _ => h
  | Threw h _ => h
  end.

(** The object at [l] has the key [key], with value [v]. *)
Definition has_prop (h : Heap) (l : loc) (key : string) (v : JsVal) : Prop :=
  exists o, h !! l = Some o /\ o !! key = Some v.

(** The shared default configuration holds every key, and its
    [requestTimeoutConfig] refers to a table that holds every timeout. *)
Definition default_intact (h : Heap) : Prop :=
  exists d lt t,
    h !! loc_defaultConfiguration = Some d
    /\ (forall key, key ∈ configuration_keys -> is_Some (d !! key))
    /\ d !! "requestTimeoutConfig" = Some (VRef lt)
    /\ h !! lt = Some t
    /\ (forall key, key ∈ requestTimeoutConfig_keys -> is_Some (t !! key)).

(** *** What a call may write *)

(** The instance after a call is the one before it, apart from a session id
    that may have been set or replaced (never cleared). *)
Definition keeps_instance (this this' : SDK) : Prop :=
  configuration this' = configuration this
  /\ omnichannelConfiguration this' = omnichannelConfiguration this
  /\ liveChatVersion this' = liveChatVersion this
  /\ ocUserAgent this' = ocUserAgent this
  /\ (is_Some (sessionId this) -> is_Some (sessionId this')).

(** Every property of every object reads as before, the nonce of the
    instance's configuration object apart. *)
Definition keeps_store (this : SDK) (h h' : Heap) : Prop :=
  forall l key,
    (l, key) <> (configuration this, "authCodeNonce") ->
    get_prop h' l key = get_prop h l key.

(** The same, the shared default headers apart as well. *)
Definition keeps_store_but_headers (this : SDK) (h h' : Heap) : Prop :=
  forall l key,
    l <> loc_defaultHeaders ->
    (l, key) <> (configuration this, "authCodeNonce") ->
    get_prop h' l key = get_prop h l key.

(** More of the concrete environment. *)
Module Sample.

Definition more_imports : MoreImports :=
  {| header_organizationId := "OrganizationId";
     header_customerDisplayName := "X-Customer-Display-Name" |}.

(** A caller's configuration object with one retry setting and its own,
    partial, timeout table. *)
Definition loc_timeouts : loc := 11%nat.
Definition loc_partial : loc := 12%nat.
Definition store_with_partial : Heap :=
  <[loc_partial :=
      list_to_map [ ("maxRequestRetriesOnFailure", VNum 1);
                    ("requestTimeoutConfig", VRef loc_timeouts) ]]>
    (<[loc_timeouts := {[ "getChatToken" := VNum 7000 ]}]> Example.store).

Definition omnichannel_without_orgId : gmap string JsVal :=
  list_to_map
    [ ("orgUrl", VStr "https://org.example"); ("widgetId", VStr "widget");
      ("channelId", VStr "lcw") ].

Definition is_threw (c : Constructed) : bool :=
  match c with
  | Built _ _ => false
  | Threw _ _ => true
  end.

Definition axios_404 : JsError :=
  {| err_name := "AxiosError";
     err_message := "Request failed with status code 404";
     err_code := Some "ERR_BAD_REQUEST";
     err_response := Some (Example.response 404 DataNone) |}.

Definition session_headers : gmap string string := {[ "oc-sessionid" := "sid-1" ]}.

Definition session_response : AxiosResponse :=
  {| status := 200; data := DataObject Example.token_body;
     headers := Some session_headers |}.

Definition rotating_response : AxiosResponse :=
  {| status := 200; data := DataNone; headers := Some Example.rotated |}.


Definition body_with_version : gmap string JsVal :=
  list_to_map [ ("LiveChatVersion", VNum 1); ("headers", VStr "old") ].

Definition dated (d : ResponseData) : AxiosResponse :=
  {| status := 200; data := d; headers := Some {[ "date" := "today" ]} |}.

End Sample.

(** * Properties *)

(** ** Objects and the store *)

Lemma get_prop_set_prop_eq (h : Heap) (l : loc) (key : string) (v : JsVal) :
  is_Some (h !! l) -> get_prop (set_prop l key v h) l key = v.
Proof.
  intros [o Ho]. unfold get_prop, set_prop.
  rewrite lookup_alter_eq, Ho. simpl. by rewrite lookup_insert_eq.
Qed.

Lemma get_prop_set_prop_ne (h : Heap) (l l' : loc) (key key' : string) (v : JsVal) :
  (l', key') <> (l, key) -> get_prop (set_prop l key v h) l' key' = get_prop h l' key'.
Proof.
  intros Hne. unfold get_prop, set_prop.
  destruct (decide (l = l')) as [->|Hl].
  - rewrite lookup_alter_eq. destruct (h !! l') as [o|]; simpl; [|done].
    rewrite lookup_insert_ne; [done|]. intros ->. by apply Hne.
  - by rewrite lookup_alter_ne.
Qed.

Lemma set_prop_is_Some (h : Heap) (l l' : loc) (key : string) (v : JsVal) :
  is_Some (set_prop l key v h !! l') <-> is_Some (h !! l').
Proof.
  unfold set_prop. destruct (decide (l = l')) as [->|Hl].
  - rewrite lookup_alter_eq. by rewrite fmap_is_Some.
  - by rewrite lookup_alter_ne.
Qed.

Lemma truthy_string_true (s : string) : truthy_string s = true <-> s <> "".
Proof. destruct s; simpl; split; congruence. Qed.

(** [fill_missing] keeps what the target has, ... *)
Lemma fill_missing_lookup_Some (keys : list string) (source target : gmap string JsVal)
    (key : string) (v : JsVal) :
  target !! key = Some v -> fill_missing keys source target !! key = Some v.
Proof.
  unfold fill_missing. revert target.
  induction keys as [|k keys IH]; intros target Hv; simpl; [done|].
  apply IH. destruct (target !! k) eqn:Hk; [done|].
  rewrite lookup_insert_ne; [done|]. intros ->. congruence.
Qed.

(** ... leaves the keys it does not go through alone, ... *)
Lemma fill_missing_lookup_notin (keys : list string) (source target : gmap string JsVal)
    (key : string) :
  key ∉ keys -> fill_missing keys source target !! key = target !! key.
Proof.
  unfold fill_missing. revert target.
  induction keys as [|k keys IH]; intros target Hnotin; simpl; [done|].
  apply not_elem_of_cons in Hnotin as [Hne Hnotin].
  rewrite IH by done. destruct (target !! k); [done|].
  by rewrite lookup_insert_ne.
Qed.

(** ... and copies a listed key the target lacks from the source. *)
Lemma fill_missing_lookup_None (keys : list string) (source target : gmap string JsVal)
    (key : string) :
  key ∈ keys -> target !! key = None ->
  fill_missing keys source target !! key = Some (default VUndefined (source !! key)).
Proof.
  unfold fill_missing. revert target.
  induction keys as [|k keys IH]; intros target Hin Hnone; simpl.
  - by apply elem_of_nil in Hin.
  - destruct (decide (k = key)) as [->|Hne].
    + rewrite Hnone.
      apply (fill_missing_lookup_Some keys source). by rewrite lookup_insert_eq.
    + apply elem_of_cons in Hin as [->|Hin]; [done|].
      apply IH; [done|]. destruct (target !! k); [done|].
      by rewrite lookup_insert_ne.
Qed.

(** ** The constructor *)

Section ConstructorFacts.
Context `{Imports}.

Lemma nonce_is_configuration_key : "authCodeNonce" ∈ configuration_keys.
Proof. by apply (bool_decide_unpack _); vm_compute. Qed.

Lemma validate_configuration_nonce (h : Heap) (arg : ConfigArg) :
  brings_nonce h arg = false ->
  get_prop (validate_configuration (chosen_configuration h arg) h)
    (chosen_configuration h arg) "authCodeNonce"
  = get_prop h loc_defaultConfiguration "authCodeNonce".
Proof.
  intros Hown. unfold validate_configuration.
  set (cfg := chosen_configuration h arg).
  destruct (h !! cfg) as [o|] eqn:Ho.
  2:{ unfold get_prop at 1. rewrite Ho.
      assert (cfg = loc_defaultConfiguration) as Hcfg.
      { subst cfg. unfold chosen_configuration in *.
        destruct arg as [|l|]; try done.
        destruct (h !! l) eqn:Hl; [|done].
        destruct (Nat.eqb _ _); [done|]. congruence. }
      unfold get_prop. by rewrite <- Hcfg, Ho. }
  destruct (h !! loc_defaultConfiguration) as [d|] eqn:Hd.
  2:{ unfold get_prop. rewrite Ho, Hd.
      assert (cfg <> loc_defaultConfiguration) as Hne by congruence.
      subst cfg. unfold chosen_configuration in *.
      destruct arg as [|l|]; try done.
      unfold brings_nonce in Hown.
      destruct (h !! l) as [o'|] eqn:Hl; [|done].
      destruct (Nat.eqb _ _); [done|].
      assert (o' = o) as -> by congruence.
      apply bool_decide_eq_false in Hown.
      destruct (o !! "authCodeNonce") eqn:Hk; [|done].
      exfalso. apply Hown. eauto. }
  unfold get_prop at 1. rewrite lookup_insert_eq.
  unfold get_prop. rewrite Hd.
  destruct (decide (cfg = loc_defaultConfiguration)) as [Heq|Hne].
  - rewrite Heq in Ho. assert (o = d) as -> by congruence.
    destruct (d !! "authCodeNonce") as [v|] eqn:Hv.
    + by rewrite (fill_missing_lookup_Some _ _ _ _ _ Hv).
    + rewrite fill_missing_lookup_None; [by rewrite Hv| |done].
      apply nonce_is_configuration_key.
  - subst cfg. unfold chosen_configuration in *.
    destruct arg as [|l|]; try done.
    unfold brings_nonce in Hown.
    destruct (h !! l) as [o'|] eqn:Hl; [|done].
    destruct (Nat.eqb _ _); [done|].
    assert (o' = o) as -> by congruence.
    apply bool_decide_eq_false in Hown.
    rewrite fill_missing_lookup_None; [done| |].
    + apply nonce_is_configuration_key.
    + destruct (o !! "authCodeNonce") eqn:Hk; [|done].
      exfalso. apply Hown. eauto.
Qed.

(** The second validation writes timeout keys only. *)
Lemma validate_requestTimeoutConfig_frame (cfg : loc) (h h' : Heap) :
  validate_requestTimeoutConfig cfg h = Some h' ->
  is_Some (h' !! cfg)
  /\ forall l key, key ∉ requestTimeoutConfig_keys -> get_prop h' l key = get_prop h l key.
Proof.
  unfold validate_requestTimeoutConfig. intros Hv.
  destruct (get_prop h cfg "requestTimeoutConfig") as [| | | |lt| |] eqn:Hcfg; try done.
  destruct (get_prop h loc_defaultConfiguration "requestTimeoutConfig")
    as [| | | |ld| |]; try done.
  destruct (h !! lt) as [t|] eqn:Ht; [|done].
  destruct (h !! ld) as [d|] eqn:Hd; [|done].
  apply (inj Some) in Hv. subst h'. split.
  - assert (is_Some (h !! cfg)) as Hsome.
    { unfold get_prop in Hcfg. destruct (h !! cfg); [eauto|done]. }
    destruct (decide (lt = cfg)) as [->|Hne].
    + rewrite lookup_insert_eq. eauto.
    + by rewrite lookup_insert_ne.
  - intros l key Hkey. unfold get_prop.
    destruct (decide (lt = l)) as [->|Hne].
    + rewrite lookup_insert_eq, Ht. by rewrite fill_missing_lookup_notin.
    + by rewrite lookup_insert_ne.
Qed.

Lemma nonce_is_no_timeout_key : "authCodeNonce" ∉ requestTimeoutConfig_keys.
Proof. by apply (bool_decide_unpack _); vm_compute. Qed.

Lemma constructor_Built (h h' : Heap) (oc : gmap string JsVal) (arg : ConfigArg)
    (this : SDK) :
  constructor h oc arg = Built h' this ->
  configuration this = chosen_configuration h arg
  /\ sessionId this = None
  /\ validate_requestTimeoutConfig (chosen_configuration h arg)
       (validate_configuration (chosen_configuration h arg) h) = Some h'.
Proof.
  unfold constructor. intros Hc.
  destruct (validate_requestTimeoutConfig _ _) as [h2|]; [|done].
  destruct (negb (valid_channelId oc)); [done|].
  destruct (first_missing _ oc); [done|].
  by injection Hc as <- <-.
Qed.

(** An instance that is built holds an object of the store. *)
Lemma constructor_Built_object (h h' : Heap) (oc : gmap string JsVal)
    (arg : ConfigArg) (this : SDK) :
  constructor h oc arg = Built h' this -> is_Some (h' !! configuration this).
Proof.
  intros Hc. apply constructor_Built in Hc as (-> & _ & Hv).
  by apply validate_requestTimeoutConfig_frame in Hv as [? _].
Qed.

(** Without a nonce of the caller's, the instance starts on the nonce of the
    shared default configuration. *)
Lemma constructor_nonce_default (h h' : Heap) (oc : gmap string JsVal)
    (arg : ConfigArg) (this : SDK) :
  constructor h oc arg = Built h' this ->
  brings_nonce h arg = false ->
  read_authCodeNonce this h' = get_prop h loc_defaultConfiguration "authCodeNonce".
Proof.
  intros Hc Hown. apply constructor_Built in Hc as (Hcfg & _ & Hv).
  apply validate_requestTimeoutConfig_frame in Hv as [_ Hframe].
  unfold read_authCodeNonce. rewrite Hcfg.
  rewrite Hframe by apply nonce_is_no_timeout_key.
  by apply validate_configuration_nonce.
Qed.

(** A nonce the caller's object brings is kept. *)
Lemma constructor_nonce_caller (h h' : Heap) (oc : gmap string JsVal) (l : loc)
    (o : gmap string JsVal) (v : JsVal) (this : SDK) :
  constructor h oc (ArgObject l) = Built h' this ->
  h !! l = Some o -> o !! "authCodeNonce" = Some v ->
  read_authCodeNonce this h' = v.
Proof.
  intros Hc Ho Hk. apply constructor_Built in Hc as (Hcfg & _ & Hv).
  apply validate_requestTimeoutConfig_frame in Hv as [_ Hframe].
  unfold read_authCodeNonce. rewrite Hcfg.
  rewrite Hframe by apply nonce_is_no_timeout_key.
  assert (chosen_configuration h (ArgObject l) = l) as Hl.
  { simpl. rewrite Ho. destruct (Nat.eqb (size o) 0) eqn:Hsz; [|done].
    apply Nat.eqb_eq, map_size_empty_iff in Hsz. subst o.
    by rewrite lookup_empty in Hk. }
  rewrite Hl. unfold validate_configuration. rewrite Ho.
  destruct (h !! loc_defaultConfiguration) as [d|].
  - unfold get_prop. rewrite lookup_insert_eq.
    by rewrite (fill_missing_lookup_Some _ _ _ _ _ Hk).
  - unfold get_prop. by rewrite Ho, Hk.
Qed.

Lemma without_configuration_default (h : Heap) (arg : ConfigArg) :
  without_configuration h arg = true ->
  chosen_configuration h arg = loc_defaultConfiguration /\ brings_nonce h arg = false.
Proof.
  destruct arg as [|l|]; simpl; try done.
  destruct (h !! l) as [o|]; [|done].
  intros Hsz. rewrite Hsz. split; [done|].
  apply Nat.eqb_eq, map_size_empty_iff in Hsz. subst o.
  apply bool_decide_eq_false. rewrite lookup_empty. by intros [? ?].
Qed.

Lemma classLoad_defaultConfiguration (uuid : string)
    (waitTimes dfltHeaders : gmap string JsVal) :
  classLoad uuid waitTimes dfltHeaders !! loc_defaultConfiguration
  = Some (defaultConfiguration uuid).
Proof.
  unfold classLoad. rewrite lookup_insert_ne by done. by rewrite lookup_insert_eq.
Qed.

Lemma classLoad_nonce (uuid : string) (waitTimes dfltHeaders : gmap string JsVal) :
  get_prop (classLoad uuid waitTimes dfltHeaders) loc_defaultConfiguration
    "authCodeNonce" = VStr (substring 0 8 uuid).
Proof.
  unfold get_prop, classLoad.
  rewrite lookup_insert_ne by done. rewrite lookup_insert_eq.
  reflexivity.
Qed.

End ConstructorFacts.

(** ** Session state *)

Section SessionState.
Context `{Imports}.

(** C3.  The commit of a response's headers overwrites only what the
    response carries: a nonce header with a value makes the next read of the
    nonce return that value; without a nonce header the store is unchanged,
    without a session id header the instance is; nothing but the nonce of the
    instance's configuration object is ever written; headers without any
    field, or no headers at all, change nothing.  (An empty header value is
    falsy and counts as absent.) *)
Theorem C3_commit_overwrites_only_present_fields
    (this : SDK) (h : Heap) (hs : gmap string string) :
  is_Some (h !! configuration this) ->
  let st' := commit_session (Some hs) (h, this) in
  (forall x, hs !! "authcodenonce" = Some x -> x <> "" ->
     read_authCodeNonce (snd st') (fst st') = VStr x)
  /\ (hs !! "authcodenonce" = None -> fst st' = h)
  /\ (hs !! toLowerCase header_ocSessionId = None -> snd st' = this)
  /\ (forall l key, (l, key) <> (configuration this, "authCodeNonce") ->
        get_prop (fst st') l key = get_prop h l key)
  /\ configuration (snd st') = configuration this
  /\ commit_session (Some ∅) (h, this) = (h, this)
  /\ commit_session None (h, this) = (h, this).
Proof.
  intros Hobj st'. subst st'. unfold commit_session. cbn [fst snd].
  assert (configuration (setSessionId (Some hs) this) = configuration this) as Hcfg.
  { unfold setSessionId. destruct (hs !! _) as [v|]; [|done].
    by destruct (truthy_string v). }
  repeat split.
  - intros x Hx Hne. unfold read_authCodeNonce, setAuthCodeNonce.
    rewrite Hcfg, Hx. apply truthy_string_true in Hne. rewrite Hne.
    by apply get_prop_set_prop_eq.
  - intros Hnone. unfold setAuthCodeNonce. by rewrite Hnone.
  - intros Hnone. unfold setSessionId. by rewrite Hnone.
  - intros l key Hne. unfold setAuthCodeNonce.
    destruct (hs !! "authcodenonce") as [v|]; [|done].
    destruct (truthy_string v); [|done].
    by apply get_prop_set_prop_ne.
  - exact Hcfg.
Qed.

(** C8, as the code has it.  An instance built without a nonce of the
    caller's (no configuration, an empty or non-object one, or an object
    without the key) starts on the nonce of the shared default
    configuration, which is the first 8 characters of the UUID drawn when
    the class was loaded as long as no response has rotated it; a nonce the
    caller's configuration object brings is kept as it is. *)
Theorem C8_nonce_seed (h h' : Heap) (oc : gmap string JsVal) (arg : ConfigArg)
    (this : SDK) (uuid : string) :
  constructor h oc arg = Built h' this ->
  get_prop h loc_defaultConfiguration "authCodeNonce" = VStr (substring 0 8 uuid) ->
  (brings_nonce h arg = false ->
     read_authCodeNonce this h' = VStr (substring 0 8 uuid))
  /\ (forall l o v, arg = ArgObject l -> h !! l = Some o ->
        o !! "authCodeNonce" = Some v -> read_authCodeNonce this h' = v).
Proof.
  intros Hc Hseed. split.
  - intros Hown. rewrite <- Hseed. by apply (constructor_nonce_default h h' oc arg).
  - intros l o v -> Ho Hv. by apply (constructor_nonce_caller h h' oc l o).
Qed.

(** C10.  Instances built without a configuration of their own hold the one
    shared default configuration object: each starts on the nonce that
    object has at that moment (right after loading, the first 8 characters of
    the UUID drawn then), both read the same nonce in every store, and a
    nonce committed through one is what the other presents next. *)
Theorem C10_default_configuration_is_aliased
    (ha ha' hb hb' : Heap) (oc1 oc2 : gmap string JsVal) (arg1 arg2 : ConfigArg)
    (sdk1 sdk2 : SDK) :
  without_configuration ha arg1 = true ->
  constructor ha oc1 arg1 = Built ha' sdk1 ->
  without_configuration hb arg2 = true ->
  constructor hb oc2 arg2 = Built hb' sdk2 ->
  configuration sdk1 = loc_defaultConfiguration
  /\ configuration sdk2 = loc_defaultConfiguration
  /\ read_authCodeNonce sdk1 ha' = get_prop ha loc_defaultConfiguration "authCodeNonce"
  /\ read_authCodeNonce sdk2 hb' = get_prop hb loc_defaultConfiguration "authCodeNonce"
  /\ (forall uuid waitTimes dfltHeaders,
        ha = classLoad uuid waitTimes dfltHeaders ->
        read_authCodeNonce sdk1 ha' = VStr (substring 0 8 uuid))
  /\ (forall hx, read_authCodeNonce sdk1 hx = read_authCodeNonce sdk2 hx)
  /\ (forall hx hs x,
        is_Some (hx !! loc_defaultConfiguration) ->
        hs !! "authcodenonce" = Some x -> x <> "" ->
        read_authCodeNonce sdk2 (setAuthCodeNonce sdk1 (Some hs) hx) = VStr x).
Proof.
  intros Hw1 Hc1 Hw2 Hc2.
  apply without_configuration_default in Hw1 as [Hd1 Hn1].
  apply without_configuration_default in Hw2 as [Hd2 Hn2].
  pose proof (constructor_Built _ _ _ _ _ Hc1) as (Hcfg1 & _ & _).
  pose proof (constructor_Built _ _ _ _ _ Hc2) as (Hcfg2 & _ & _).
  rewrite Hd1 in Hcfg1. rewrite Hd2 in Hcfg2.
  repeat split; try done.
  - by apply (constructor_nonce_default ha ha' oc1 arg1).
  - by apply (constructor_nonce_default hb hb' oc2 arg2).
  - intros uuid waitTimes dfltHeaders ->.
    rewrite (constructor_nonce_default _ ha' oc1 arg1) by done.
    apply classLoad_nonce.
  - intros hx. unfold read_authCodeNonce. by rewrite Hcfg1, Hcfg2.
  - intros hx hs x Hobj Hx Hne. unfold read_authCodeNonce, setAuthCodeNonce.
    rewrite Hx. apply truthy_string_true in Hne. rewrite Hne, Hcfg1, Hcfg2.
    by apply get_prop_set_prop_eq.
Qed.

End SessionState.

(** ** The retry policy engine *)

Section EngineFacts.
Context `{Imports}.

(** Past the ceiling nothing is retried, however the failure is classified. *)
Lemma evaluate_ceiling (attempt : AttemptContext) (failure : JsError)
    (policy : RetryPolicy) :
  (maxAttempts policy <= Z.of_nat (attemptNumber attempt))%Z ->
  retry (evaluate attempt failure policy) = false.
Proof.
  intros Hle. unfold evaluate. simpl.
  destruct (Z.leb_spec (maxAttempts policy) (Z.of_nat (attemptNumber attempt)));
    [done|lia].
Qed.

Lemma evaluate_below_ceiling (attempt : AttemptContext) (failure : JsError)
    (policy : RetryPolicy) :
  (Z.of_nat (attemptNumber attempt) < maxAttempts policy)%Z ->
  retry (evaluate attempt failure policy) = wants_retry policy failure.
Proof.
  intros Hlt. unfold evaluate. simpl.
  destruct (Z.leb_spec (maxAttempts policy) (Z.of_nat (attemptNumber attempt)));
    [lia|done].
Qed.


Section DispatcherFacts.
Context {S : Type}.
Variable commit : option (gmap string string) -> S -> S.
Variable snapshot : S -> string -> option JsVal.
Variable transport : nat -> gmap string JsVal -> AttemptResult.
Variable policy : RetryPolicy.

(** A response ends the loop at once. *)
Lemma attempt_loop_ok (budget n : nat) (hdrs : gmap string JsVal) (st : S) (w : Z)
    (r : AxiosResponse) :
  transport n hdrs = AttemptOk r ->
  attempt_loop commit snapshot transport policy budget n hdrs st w
  = {| outcome := Succeeded r; attempts := Datatypes.S n; waited := w;
       final := commit (headers r) st |}.
Proof. intros Ht. destruct budget; cbn [attempt_loop]; by rewrite Ht. Qed.

(** So does an error the policy does not ask to retry. *)
Lemma attempt_loop_stop (budget n : nat) (hdrs : gmap string JsVal) (st : S) (w : Z)
    (e : JsError) :
  transport n hdrs = AttemptErr e ->
  retry (evaluate {| attemptNumber := n; lastFailure := Some e |} e policy) = false ->
  attempt_loop commit snapshot transport policy budget n hdrs st w
  = {| outcome := Failed e; attempts := Datatypes.S n; waited := w;
       final := commit (response_headers e) st |}.
Proof. intros Ht Hr. destruct budget; cbn [attempt_loop]; by rewrite Ht, Hr. Qed.

(** The budget [execute] starts with is never the reason to stop: any
    budget that covers the attempts left up to the ceiling gives the same
    run. *)
Lemma attempt_loop_budget (budget budget' n : nat) (hdrs : gmap string JsVal)
    (st : S) (w : Z) :
  (maxAttempts policy <= Z.of_nat (n + budget))%Z ->
  (maxAttempts policy <= Z.of_nat (n + budget'))%Z ->
  attempt_loop commit snapshot transport policy budget n hdrs st w
  = attempt_loop commit snapshot transport policy budget' n hdrs st w.
Proof.
  revert budget' n hdrs st w.
  induction budget as [|b IH]; intros budget' n hdrs st w Hb Hb'.
  - destruct budget' as [|b']; [done|]. cbn [attempt_loop].
    destruct (transport n hdrs) as [r|e]; [done|].
    rewrite evaluate_ceiling; [done|simpl; lia].
  - destruct budget' as [|b']; cbn [attempt_loop].
    + destruct (transport n hdrs) as [r|e]; [done|].
      rewrite evaluate_ceiling; [done|simpl; lia].
    + destruct (transport n hdrs) as [r|e]; [done|].
      destruct (retry _); [|done]. apply IH; lia.
Qed.

Lemma all_fail_loop (total budget n : nat) (hdrs : gmap string JsVal) (st : S) (w : Z) :
  maxAttempts policy = Z.of_nat total ->
  (n + budget = total)%nat ->
  (forall i, (i <= total)%nat -> fails_retryably transport policy i) ->
  let d := attempt_loop commit snapshot transport policy budget n hdrs st w in
  attempts d = Datatypes.S total
  /\ waited d = (w + Z.of_nat budget * backoffMillis policy)%Z
  /\ exists e hs, outcome d = Failed e /\ transport total hs = AttemptErr e
                  /\ wants_retry policy e = true.
Proof.
  intros Hmax. revert n hdrs st w.
  induction budget as [|b IH]; intros n hdrs st w Hsum Hfail; cbn [attempt_loop].
  - assert (n = total) as -> by lia.
    destruct (Hfail total (le_n _) hdrs) as (e & He & Hw). rewrite He.
    rewrite evaluate_ceiling by (simpl; lia). cbn.
    repeat split; [lia|]. by exists e, hdrs.
  - destruct (Hfail n ltac:(lia) hdrs) as (e & He & Hw). rewrite He.
    rewrite evaluate_below_ceiling by (simpl; lia). rewrite Hw.
    destruct (IH (Datatypes.S n)
                (refresh snapshot (headerOverwrites policy)
                   (commit (response_headers e) st) hdrs)
                (commit (response_headers e) st)
                (w + backoffMillis policy)%Z ltac:(lia) Hfail)
      as (Ha & Hwait & Hout).
    simpl in *. repeat split; [done| |done]. rewrite Hwait. lia.
Qed.

(** A run that ends in [Succeeded] ends with the attempt the response
    answers: every attempt before it failed with an error the policy asks to
    retry, and none is sent after it. *)
Lemma attempt_loop_succeeded (budget n : nat) (hdrs : gmap string JsVal) (st : S)
    (w : Z) (r : AxiosResponse) :
  let d := attempt_loop commit snapshot transport policy budget n hdrs st w in
  outcome d = Succeeded r ->
  exists k hs,
    attempts d = Datatypes.S (n + k)
    /\ transport (n + k)%nat hs = AttemptOk r
    /\ forall i, (n <= i < n + k)%nat ->
         exists hs' e, transport i hs' = AttemptErr e
                       /\ wants_retry policy e = true.
Proof.
  revert n hdrs st w.
  induction budget as [|b IH]; intros n hdrs st w; cbn [attempt_loop].
  - destruct (transport n hdrs) as [r'|e] eqn:Ht.
    + cbn. intros [= ->]. exists 0%nat, hdrs. rewrite Nat.add_0_r.
      repeat split; [done|]. intros i Hi. lia.
    + destruct (retry _); cbn; discriminate.
  - destruct (transport n hdrs) as [r'|e] eqn:Ht.
    + cbn. intros [= ->]. exists 0%nat, hdrs. rewrite Nat.add_0_r.
      repeat split; [done|]. intros i Hi. lia.
    + destruct (retry _) eqn:Hretry; [|cbn; discriminate].
      intros Hout. apply IH in Hout as (k & hs & Ha & Hlast & Hbefore).
      exists (Datatypes.S k), hs.
      replace (n + Datatypes.S k)%nat with (Datatypes.S n + k)%nat by lia.
      repeat split; [exact Ha|exact Hlast|].
      intros i Hi. destruct (decide (i = n)) as [->|Hne].
      * exists hdrs, e. split; [exact Ht|].
        unfold evaluate in Hretry. cbn [retry] in Hretry.
        by destruct (Z.leb _ _).
      * apply Hbefore. lia.
Qed.

Lemma execute_succeeded (hdrs : gmap string JsVal) (st : S) (r : AxiosResponse) :
  let d := execute commit snapshot transport policy hdrs st in
  outcome d = Succeeded r ->
  exists n hs,
    attempts d = Datatypes.S n
    /\ transport n hs = AttemptOk r
    /\ forall i, (i < n)%nat ->
         exists hs' e, transport i hs' = AttemptErr e
                       /\ wants_retry policy e = true.
Proof.
  intros d Hout. subst d. unfold execute in *.
  apply attempt_loop_succeeded in Hout as (k & hs & Ha & Hlast & Hbefore).
  exists k, hs. cbn [Nat.add] in *. repeat split; [exact Ha|exact Hlast|].
  intros i Hi. apply Hbefore. lia.
Qed.

End DispatcherFacts.

(** C1.  Under a policy with [maxAttempts = n], when the attempts 0 to n all
    fail with an error the policy asks to retry, the dispatcher sends exactly
    n + 1 attempts (n retries, each after the fixed delay) and ends in
    [Failed] with the error of the last one; and once the attempt number has
    reached [maxAttempts] the engine answers "no retry" for every failure and
    every policy. *)
Theorem C1_retries_stop_at_maxAttempts {S : Type}
    (commit : option (gmap string string) -> S -> S)
    (snapshot : S -> string -> option JsVal)
    (transport : nat -> gmap string JsVal -> AttemptResult)
    (policy : RetryPolicy) (n : nat) (hdrs : gmap string JsVal) (st : S) :
  maxAttempts policy = Z.of_nat n ->
  (forall i, (i <= n)%nat -> fails_retryably transport policy i) ->
  let d := execute commit snapshot transport policy hdrs st in
  attempts d = Datatypes.S n
  /\ (attempts d - 1)%nat = n
  /\ waited d = (Z.of_nat n * backoffMillis policy)%Z
  /\ (exists e hs, outcome d = Failed e /\ transport n hs = AttemptErr e
                   /\ wants_retry policy e = true)
  /\ (forall attempt failure policy',
        (maxAttempts policy' <= Z.of_nat (attemptNumber attempt))%Z ->
        retry (evaluate attempt failure policy') = false).
Proof.
  intros Hmax Hfail d. subst d. unfold execute.
  rewrite Hmax, Nat2Z.id.
  destruct (all_fail_loop commit snapshot transport policy n n 0 hdrs st 0%Z
              Hmax eq_refl Hfail) as (Ha & Hw & Hout).
  repeat split.
  - exact Ha.
  - rewrite Ha. lia.
  - rewrite Hw. lia.
  - exact Hout.
  - intros attempt failure policy'. apply evaluate_ceiling.
Qed.


End EngineFacts.

(** ** The operations *)

Section OperationFacts.
Context `{Imports}.

Lemma execute_first_ok {S : Type}
    (commit : option (gmap string string) -> S -> S)
    (snapshot : S -> string -> option JsVal)
    (transport : nat -> gmap string JsVal -> AttemptResult)
    (policy : RetryPolicy) (hdrs : gmap string JsVal) (st : S) (r : AxiosResponse) :
  transport 0%nat hdrs = AttemptOk r ->
  execute commit snapshot transport policy hdrs st
  = {| outcome := Succeeded r; attempts := 1; waited := 0;
       final := commit (headers r) st |}.
Proof. intros Ht. unfold execute. by apply attempt_loop_ok. Qed.

(** The shared [catch] block turns a timeout into the fixed message and
    passes every other error on. *)
Lemma catch_with_timeout_spec (error : Thrown) :
  catch_with_timeout error Pending
  = if isExpectedAxiosError error axiosTimeoutErrorCode
    then Rejected (ThrowError (newError HTTPTimeOutErrorMessage))
    else Rejected error.
Proof.
  unfold catch_with_timeout.
  by destruct (isExpectedAxiosError error axiosTimeoutErrorCode).
Qed.

(** [getChatConfig] passes the error of the dispatch on as it is. *)
Lemma getChatConfig_failed (transport : nat -> gmap string JsVal -> AttemptResult)
    (this : SDK) (h : Heap) (requestId : string) (bypassCache : bool)
    (uuid : string) (error : JsError) :
  outcome (getChatConfig_dispatch transport this h
             (if truthy_string requestId then requestId else uuid) bypassCache)
  = Failed error ->
  settled (getChatConfig transport this h requestId bypassCache uuid)
  = Rejected (ThrowError error).
Proof. intros Hd. unfold getChatConfig. by rewrite Hd. Qed.

(** [getChatToken] under a remote side whose attempts all fail retryably:
    it sends one attempt more than the larger of [currentRetryCount] and
    [maxRequestRetriesOnFailure], and is rejected. *)
Lemma getChatToken_exhausts_retries
    (transport : nat -> gmap string JsVal -> AttemptResult)
    (this : SDK) (h : Heap) (requestId : string) (params : OptionalParams)
    (currentRetryCount : Z) (uuid : string) (n : nat) :
  (0 <= currentRetryCount)%Z ->
  let rid := if truthy_string requestId then requestId else uuid in
  let policy :=
    getChatToken_policy this
      (<[loc_defaultHeaders := getChatToken_headers this h rid params]> h)
      currentRetryCount in
  maxAttempts policy = Z.of_nat n ->
  (forall i, (i <= n)%nat -> fails_retryably transport policy i) ->
  let r := getChatToken transport this h requestId params currentRetryCount uuid in
  dispatched r = Datatypes.S n /\ exists e, settled r = Rejected e.
Proof.
  intros Hcount rid policy Hmax Hfail r. subst r.
  unfold getChatToken, getChatToken_dispatch.
  destruct (Z.ltb_spec currentRetryCount 0); [lia|].
  fold rid. fold policy.
  unfold execute. rewrite Hmax, Nat2Z.id.
  destruct (all_fail_loop commit_session snapshot_session transport policy n n 0
              (getChatToken_headers this h rid params)
              (<[loc_defaultHeaders := getChatToken_headers this h rid params]> h, this)
              0%Z Hmax eq_refl Hfail) as (Ha & _ & (e & hs & Hout & _)).
  rewrite Hout. cbn [dispatched settled]. split; [exact Ha|].
  rewrite catch_with_timeout_spec.
  destruct (isExpectedAxiosError _ _); eauto.
Qed.

(** C2, as the code has it.  Whenever the request of a [getChatToken]
    call with a reconnect id ends with a 204 response without a body, be it
    the answer to the first attempt or to a retry, the promise is rejected
    with the response object itself (it is never resolved), and no attempt is
    sent after the one the response answers: the attempts before it all
    failed, and a 204 that answers the first attempt leaves it at one. *)
Theorem C2_reconnect_no_content_rejects_with_response
    (transport : nat -> gmap string JsVal -> AttemptResult)
    (this : SDK) (h : Heap) (requestId : string) (params : OptionalParams)
    (currentRetryCount : Z) (uuid : string) (response : AxiosResponse) :
  (0 <= currentRetryCount)%Z ->
  truthy_opt (reconnectId params) = true ->
  status response = 204%Z ->
  data response = DataNone ->
  let rid := if truthy_string requestId then requestId else uuid in
  let d := getChatToken_dispatch transport this h rid params currentRetryCount in
  let r := getChatToken transport this h requestId params currentRetryCount uuid in
  (outcome d = Succeeded response ->
   settled r = Rejected (ThrowResponse response)
   /\ (forall v, settled r <> Resolved v)
   /\ exists n hs,
        dispatched r = Datatypes.S n
        /\ transport n hs = AttemptOk response
        /\ forall i, (i < n)%nat -> exists hs' e, transport i hs' = AttemptErr e)
  /\ (transport 0%nat (getChatToken_headers this h rid params) = AttemptOk response ->
      outcome d = Succeeded response /\ dispatched r = 1%nat).
Proof.
  intros Hcount Hreconnect Hstatus Hdata rid d r. subst d r.
  unfold getChatToken. fold rid.
  destruct (Z.ltb_spec currentRetryCount 0); [lia|]. split.
  - intros Hd. rewrite Hd. unfold getChatToken_then.
    cbn [settled dispatched fst snd].
    rewrite Hdata, Hreconnect, Hstatus. cbn [andb Z.eqb noContentStatusCode].
    split; [reflexivity|]. split; [intros v; discriminate|].
    unfold getChatToken_dispatch in Hd |- *.
    apply execute_succeeded in Hd as (n & hs & Ha & Hlast & Hbefore).
    exists n, hs. split; [exact Ha|]. split; [exact Hlast|].
    intros i Hi. destruct (Hbefore i Hi) as (hs' & e & He & _). by exists hs', e.
  - intros Hfirst. unfold getChatToken_dispatch.
    rewrite (execute_first_ok _ _ _ _ _ _ _ Hfirst). by cbn.
Qed.

(** C5.  Whenever the request of [getChatToken] or [createConversation] ends
    with a response whose body is an empty object, be it the answer to the
    first attempt or to a retry, the call is rejected with the error "Empty
    data received from getChatToken", and no attempt is sent after the one
    the response answers: the attempts before it all failed, and an empty
    body that answers the first attempt leaves it at one. *)
Theorem C5_empty_body_is_a_failure
    (transport : nat -> gmap string JsVal -> AttemptResult)
    (this : SDK) (h : Heap) (requestId : string) (params : OptionalParams)
    (response : AxiosResponse) :
  data response = DataObject ∅ ->
  let empty :=
    Rejected (ThrowError (newError "Empty data received from getChatToken")) in
  (forall currentRetryCount uuid,
     (0 <= currentRetryCount)%Z ->
     let rid := if truthy_string requestId then requestId else uuid in
     let d := getChatToken_dispatch transport this h rid params currentRetryCount in
     let r := getChatToken transport this h requestId params currentRetryCount uuid in
     (outcome d = Succeeded response ->
      settled r = empty
      /\ exists n hs,
           dispatched r = Datatypes.S n
           /\ transport n hs = AttemptOk response
           /\ forall i, (i < n)%nat -> exists hs' e, transport i hs' = AttemptErr e)
     /\ (transport 0%nat (getChatToken_headers this h rid params)
         = AttemptOk response ->
         outcome d = Succeeded response /\ dispatched r = 1%nat))
  /\ (getContext params && negb window_document = false ->
      effective_locale params ∈ supportedLocales ->
      let d := createConversation_dispatch transport this h requestId params in
      let r := createConversation transport this h requestId params in
      (outcome d = Succeeded response ->
       settled r = empty
       /\ exists n hs,
            dispatched r = Datatypes.S n
            /\ transport n hs = AttemptOk response
            /\ forall i, (i < n)%nat -> exists hs' e, transport i hs' = AttemptErr e)
      /\ (transport 0%nat (createConversation_headers this h requestId params)
          = AttemptOk response ->
          outcome d = Succeeded response /\ dispatched r = 1%nat)).
Proof.
  intros Hdata empty. subst empty. split.
  - intros currentRetryCount uuid Hcount rid d r. subst d r.
    unfold getChatToken. fold rid.
    destruct (Z.ltb_spec currentRetryCount 0); [lia|]. split.
    + intros Hd. rewrite Hd. unfold getChatToken_then.
      cbn [settled dispatched fst snd].
      rewrite Hdata, map_size_empty. cbn [Nat.eqb reject].
      split; [reflexivity|].
      unfold getChatToken_dispatch in Hd |- *.
      apply execute_succeeded in Hd as (n & hs & Ha & Hlast & Hbefore).
      exists n, hs. split; [exact Ha|]. split; [exact Hlast|].
      intros i Hi. destruct (Hbefore i Hi) as (hs' & e & He & _). by exists hs', e.
    + intros Hfirst. unfold getChatToken_dispatch.
      rewrite (execute_first_ok _ _ _ _ _ _ _ Hfirst). by cbn.
  - intros Hcontext Hlocale d r. subst d r.
    unfold createConversation.
    rewrite Hcontext. rewrite bool_decide_eq_true_2 by done.
    cbn [negb]. rewrite andb_false_r. split.
    + intros Hd. rewrite Hd. unfold createConversation_try.
      cbn [settled dispatched fst snd].
      rewrite Hdata, map_size_empty. cbn [Nat.eqb].
      split; [reflexivity|].
      unfold createConversation_dispatch in Hd |- *.
      apply execute_succeeded in Hd as (n & hs & Ha & Hlast & Hbefore).
      exists n, hs. split; [exact Ha|]. split; [exact Hlast|].
      intros i Hi. destruct (Hbefore i Hi) as (hs' & e & He & _). by exists hs', e.
    + intros Hfirst. unfold createConversation_dispatch.
      rewrite (execute_first_ok _ _ _ _ _ _ _ Hfirst). by cbn.
Qed.


(** C9.  When the request of [getChatToken] succeeds with a response that
    has no body, and no reconnect id was given or the status is not 204, the
    promise is left pending: it is neither resolved nor rejected. *)
Theorem C9_getChatToken_left_pending
    (transport : nat -> gmap string JsVal -> AttemptResult)
    (this : SDK) (h : Heap) (requestId : string) (params : OptionalParams)
    (currentRetryCount : Z) (uuid : string) (response : AxiosResponse) :
  (0 <= currentRetryCount)%Z ->
  outcome (getChatToken_dispatch transport this h
             (if truthy_string requestId then requestId else uuid) params
             currentRetryCount)
  = Succeeded response ->
  data response = DataNone ->
  truthy_opt (reconnectId params) = false \/ status response <> noContentStatusCode ->
  let r := getChatToken transport this h requestId params currentRetryCount uuid in
  settled r = Pending
  /\ (forall v, settled r <> Resolved v)
  /\ (forall e, settled r <> Rejected e).
Proof.
  intros Hcount Hd Hdata Hcase r. subst r. unfold getChatToken.
  destruct (Z.ltb_spec currentRetryCount 0); [lia|].
  rewrite Hd. unfold getChatToken_then. cbn [settled fst].
  rewrite Hdata.
  assert (truthy_opt (reconnectId params)
          && Z.eqb (status response) noContentStatusCode = false) as ->.
  { destruct Hcase as [->|Hne]; [done|].
    apply andb_false_iff. right. by apply Z.eqb_neq. }
  repeat split; intros; discriminate.
Qed.

End OperationFacts.

(** ** The operations run on the concrete environment *)

Section Runs.
Import Example.
Local Existing Instance imports.

(** C6.  A [getChatConfig] call whose every attempt times out is rejected
    with the error of the HTTP client as it is, not with the fixed timeout
    message; [getChatToken], like the other operations with the shared
    [catch] block, rejects the same failure with the fixed message. *)
Theorem C6_getChatConfig_timeout_keeps_transport_error :
  let r := getChatConfig (always (AttemptErr config_timeout_error)) sdk store
             "request-1" false uuid in
  isExpectedAxiosError (ThrowError config_timeout_error) axiosTimeoutErrorCode = true
  /\ settled r = Rejected (ThrowError config_timeout_error)
  /\ settled r <> Rejected (ThrowError (newError HTTPTimeOutErrorMessage))
  /\ settled (getChatToken (always (AttemptErr timeout_error)) sdk store
                "request-1" no_params 0 uuid)
     = Rejected (ThrowError (newError HTTPTimeOutErrorMessage)).
Proof.
  split; [reflexivity|]. split; [reflexivity|]. split; [|reflexivity].
  vm_compute. intros Heq. discriminate Heq.
Qed.

(** The spec's scenario "429, 429, 200" under [maxAttempts = 2] with
    [retryOn429]: two retries, three attempts, the 200 wins. *)
Example scenario_two_busy_then_ok :
  let d := execute (fun _ (s : unit) => s) (fun _ _ => None) busy_twice
             retry_on_429 ∅ tt in
  attempts d = 3%nat /\ waited d = 20%Z
  /\ outcome d = Succeeded (response 200 (DataObject token_body)).
Proof. repeat split. Qed.

(** The spec's scenario of a nonce rotated by a failed attempt: the retry of
    an authenticated [getChatToken] presents the nonce the failed answer
    brought, and the instance holds it afterwards. *)
Example scenario_retry_presents_rotated_nonce :
  let r := getChatToken wants_n2 sdk store "request-1" auth_params 0 uuid in
  dispatched r = 2%nat
  /\ read_authCodeNonce (this_after r) (heap_after r) = VStr "n2"
  /\ settled r = Resolved (DataObject (<["requestId" := VStr "request-1"]> token_body)).
Proof. vm_compute. repeat split. Qed.

Lemma C1_witness :
  let remote := always (AttemptErr timeout_error) in
  let d := execute (fun _ (s : unit) => s) (fun _ _ => None) remote
             (default_policy 2) ∅ tt in
  maxAttempts (default_policy 2) = 2%Z
  /\ (forall i, (i <= 2)%nat -> fails_retryably remote (default_policy 2) i)
  /\ attempts d = 3%nat
  /\ (attempts d - 1)%nat = 2%nat
  /\ outcome d = Failed timeout_error.
Proof.
  intros remote d.
  assert (forall i, (i <= 2)%nat -> fails_retryably remote (default_policy 2) i)
    as Hfail.
  { intros i _ hs. exists timeout_error. split; reflexivity. }
  destruct (C1_retries_stop_at_maxAttempts (fun _ (s : unit) => s)
              (fun _ _ => None) remote (default_policy 2) 2 ∅ tt eq_refl Hfail)
    as (Ha & Hr & _ & (e & hs & Hout & He & _) & _).
  split; [reflexivity|]. split; [exact Hfail|].
  split; [exact Ha|]. split; [exact Hr|].
  fold d in Hout. rewrite Hout. f_equal.
  unfold remote, always in He. congruence.
Defined.

Lemma C2_counterexample :
  let r := getChatToken (always (AttemptOk (response 204 DataNone))) sdk store
             "request-1" reconnect_params 0 uuid in
  settled r = Rejected (ThrowResponse (response 204 DataNone))
  /\ forall v, settled r <> Resolved v.
Proof. split; [reflexivity|]. intros v. vm_compute. discriminate. Qed.

Lemma C2_witness :
  let remote := after_a_failure (AttemptOk (response 204 DataNone)) in
  let r := getChatToken remote sdk store "request-1" reconnect_params 0 uuid in
  outcome (getChatToken_dispatch remote sdk store "request-1" reconnect_params 0)
  = Succeeded (response 204 DataNone)
  /\ dispatched r = 2%nat
  /\ settled r = Rejected (ThrowResponse (response 204 DataNone)).
Proof.
  intros remote r.
  assert (outcome (getChatToken_dispatch remote sdk store "request-1"
                     reconnect_params 0)
          = Succeeded (response 204 DataNone)) as Hd by (vm_compute; reflexivity).
  destruct (C2_reconnect_no_content_rejects_with_response
              remote sdk store "request-1" reconnect_params 0 uuid
              (response 204 DataNone) ltac:(lia) eq_refl eq_refl eq_refl)
    as (Hgeneral & _).
  destruct (Hgeneral Hd) as (Hs & _ & _).
  split; [exact Hd|]. split; [vm_compute; reflexivity|exact Hs].
Defined.

Lemma C3_witness :
  is_Some (store !! configuration sdk)
  /\ read_authCodeNonce sdk
       (setAuthCodeNonce sdk (Some {[ "authcodenonce" := "n2" ]}) store)
     = VStr "n2"
  /\ setAuthCodeNonce sdk (Some {[ "date" := "today" ]}) store = store.
Proof.
  assert (is_Some (store !! configuration sdk)) as Hobj.
  { exists (defaultConfiguration uuid). apply classLoad_defaultConfiguration. }
  split; [exact Hobj|]. split.
  - destruct (C3_commit_overwrites_only_present_fields sdk store
                {[ "authcodenonce" := "n2" ]} Hobj) as (Hread & _).
    apply (Hread "n2"); [reflexivity|discriminate].
  - destruct (C3_commit_overwrites_only_present_fields sdk store
                {[ "date" := "today" ]} Hobj) as (_ & Hkeep & _).
    apply Hkeep. reflexivity.
Defined.


Lemma C5_witness :
  let remote := after_a_failure (AttemptOk (response 200 (DataObject ∅))) in
  let empty := Rejected (ThrowError (newError "Empty data received from getChatToken")) in
  dispatched (getChatToken remote sdk store "request-1" no_params 0 uuid) = 2%nat
  /\ settled (getChatToken remote sdk store "request-1" no_params 0 uuid) = empty
  /\ dispatched (createConversation remote sdk store "request-1" no_params) = 2%nat
  /\ settled (createConversation remote sdk store "request-1" no_params) = empty.
Proof.
  intros remote empty.
  destruct (C5_empty_body_is_a_failure remote sdk store "request-1" no_params
              (response 200 (DataObject ∅)) eq_refl) as (Htoken & Hconversation).
  destruct (Htoken 0%Z uuid ltac:(lia)) as (Htoken' & _).
  destruct (Htoken' ltac:(vm_compute; reflexivity)) as (Hs1 & _).
  assert (effective_locale no_params ∈ supportedLocales) as Hlocale.
  { by apply (bool_decide_unpack _); vm_compute. }
  destruct (Hconversation eq_refl Hlocale) as (Hconversation' & _).
  destruct (Hconversation' ltac:(vm_compute; reflexivity)) as (Hs2 & _).
  split; [vm_compute; reflexivity|]. split; [exact Hs1|].
  split; [vm_compute; reflexivity|exact Hs2].
Defined.



Lemma C8_counterexample :
  exists h' this,
    constructor store_with_caller omnichannel (ArgObject loc_caller) = Built h' this
    /\ read_authCodeNonce this h' = VStr "caller01"
    /\ read_authCodeNonce this h' <> VStr (substring 0 8 uuid).
Proof.
  assert (is_built (constructor store_with_caller omnichannel (ArgObject loc_caller))
          = true) as Hbuilt by (vm_compute; reflexivity).
  destruct (constructor store_with_caller omnichannel (ArgObject loc_caller))
    as [h' this|h' e] eqn:Hc.
  - exists h', this. split; [reflexivity|].
    assert (read_authCodeNonce this h' = VStr "caller01") as Hread.
    { change (nonce_of (Built h' this) = VStr "caller01"). rewrite <- Hc.
      vm_compute. reflexivity. }
    split; [exact Hread|]. rewrite Hread. discriminate.
  - discriminate Hbuilt.
Qed.

Lemma C8_witness :
  exists h' this,
    constructor store omnichannel ArgOmitted = Built h' this
    /\ get_prop store loc_defaultConfiguration "authCodeNonce"
       = VStr (substring 0 8 uuid)
    /\ read_authCodeNonce this h' = VStr "123e4567".
Proof.
  assert (is_built (constructor store omnichannel ArgOmitted) = true) as Hbuilt
    by (vm_compute; reflexivity).
  destruct (constructor store omnichannel ArgOmitted) as [h' this|h' e] eqn:Hc.
  - exists h', this. split; [reflexivity|].
    assert (get_prop store loc_defaultConfiguration "authCodeNonce"
            = VStr (substring 0 8 uuid)) as Hseed by apply classLoad_nonce.
    split; [exact Hseed|].
    destruct (C8_nonce_seed store h' omnichannel ArgOmitted this uuid Hc Hseed)
      as (Hdefault & _).
    apply Hdefault. reflexivity.
  - discriminate Hbuilt.
Defined.

Lemma C9_witness :
  let remote := always (AttemptOk (response 200 DataNone)) in
  outcome (getChatToken_dispatch remote sdk store "request-1" no_params 0)
  = Succeeded (response 200 DataNone)
  /\ settled (getChatToken remote sdk store "request-1" no_params 0 uuid) = Pending.
Proof.
  intros remote.
  destruct (C9_getChatToken_left_pending remote sdk store "request-1" no_params
              0 uuid (response 200 DataNone) ltac:(lia) eq_refl eq_refl
              (or_introl eq_refl)) as (Hpending & _).
  split; [reflexivity|exact Hpending].
Defined.

Lemma C10_witness :
  exists h1 sdk1 h2 sdk2,
    constructor store omnichannel ArgOmitted = Built h1 sdk1
    /\ constructor store omnichannel ArgPrimitive = Built h2 sdk2
    /\ read_authCodeNonce sdk1 h1 = read_authCodeNonce sdk2 h2
    /\ read_authCodeNonce sdk2
         (setAuthCodeNonce sdk1 (Some {[ "authcodenonce" := "n2" ]}) store)
       = VStr "n2".
Proof.
  assert (is_built (constructor store omnichannel ArgOmitted) = true) as Hb1
    by (vm_compute; reflexivity).
  assert (is_built (constructor store omnichannel ArgPrimitive) = true) as Hb2
    by (vm_compute; reflexivity).
  destruct (constructor store omnichannel ArgOmitted) as [h1 sdk1|h1 e] eqn:Hc1.
  2:{ discriminate Hb1. }
  destruct (constructor store omnichannel ArgPrimitive) as [h2 sdk2|h2 e] eqn:Hc2.
  2:{ discriminate Hb2. }
  exists h1, sdk1, h2, sdk2.
  destruct (C10_default_configuration_is_aliased store h1 store h2 omnichannel
              omnichannel ArgOmitted ArgPrimitive sdk1 sdk2 eq_refl Hc1 eq_refl Hc2)
    as (_ & _ & Hstart1 & Hstart2 & _ & _ & Hrotate).
  split; [reflexivity|]. split; [reflexivity|]. split.
  - by rewrite Hstart1, Hstart2.
  - apply Hrotate; [|reflexivity|discriminate].
    exists (defaultConfiguration uuid). apply classLoad_defaultConfiguration.
Defined.

End Runs.

(** * Further properties *)

(** ** Filling in defaults *)

Lemma fill_missing_present (keys : list string) (source target : gmap string JsVal)
    (key : string) :
  key ∈ keys -> is_Some (fill_missing keys source target !! key).
Proof.
  intros Hin. destruct (target !! key) as [v|] eqn:Hk.
  - rewrite (fill_missing_lookup_Some _ _ _ _ _ Hk). eauto.
  - rewrite fill_missing_lookup_None by done. eauto.
Qed.

Lemma fill_missing_id (keys : list string) (source target : gmap string JsVal) :
  (forall key, key ∈ keys -> is_Some (target !! key)) ->
  fill_missing keys source target = target.
Proof.
  unfold fill_missing. revert target.
  induction keys as [|k keys IH]; intros target Hall; simpl; [done|].
  destruct (Hall k) as [v Hv]; [by left|]. rewrite Hv.
  apply IH. intros key Hin. apply Hall. by right.
Qed.

Lemma first_missing_None (required : list string) (o : gmap string JsVal) :
  first_missing required o = None <-> forall key, key ∈ required -> is_Some (o !! key).
Proof.
  induction required as [|k required IH]; simpl.
  - split; [|done]. intros _ key Hin. by apply elem_of_nil in Hin.
  - destruct (o !! k) as [v|] eqn:Hk.
    + rewrite IH. split.
      * intros Hall key [->|Hin]%elem_of_cons; [eauto|by apply Hall].
      * intros Hall key Hin. apply Hall. by right.
    + split; [done|]. intros Hall. destruct (Hall k) as [v Hv]; [by left|].
      congruence.
Qed.

Lemma first_missing_Some (required : list string) (o : gmap string JsVal)
    (key : string) :
  first_missing required o = Some key <->
  exists before after,
    required = (before ++ key :: after)%list
    /\ o !! key = None
    /\ forall k, k ∈ before -> is_Some (o !! k).
Proof.
  induction required as [|k required IH]; simpl.
  - split; [done|]. intros (before & after & Heq & _). by destruct before.
  - destruct (o !! k) as [v|] eqn:Hk.
    + rewrite IH. split.
      * intros (before & after & -> & Hnone & Hall).
        exists (k :: before), after. repeat split; [done|].
        intros k' [->|Hin]%elem_of_cons; [eauto|by apply Hall].
      * intros (before & after & Heq & Hnone & Hall).
        destruct before as [|b before]; simpl in Heq.
        -- injection Heq as -> _. congruence.
        -- injection Heq as -> ->. exists before, after. repeat split; [done|].
           intros k' Hin. apply Hall. by right.
    + split.
      * intros [= <-]. exists [], required. repeat split; [done|].
        intros k' Hin. by apply elem_of_nil in Hin.
      * intros (before & after & Heq & Hnone & Hall).
        destruct before as [|b before]; simpl in Heq.
        -- by injection Heq as -> _.
        -- injection Heq as -> _. destruct (Hall b) as [v Hv]; [by left|].
           congruence.
Qed.

(** ** The constructor, once more *)

Section ConstructorMore.
Context `{Imports}.

Lemma has_prop_get_prop (h : Heap) (l : loc) (key : string) (v : JsVal) :
  has_prop h l key v -> get_prop h l key = v.
Proof. intros (o & Ho & Hk). unfold get_prop. by rewrite Ho, Hk. Qed.

Lemma has_prop_fill (h : Heap) (l l' : loc) (keys : list string)
    (source target : gmap string JsVal) (key : string) (v : JsVal) :
  h !! l' = Some target ->
  has_prop h l key v ->
  has_prop (<[l' := fill_missing keys source target]> h) l key v.
Proof.
  intros Ht (o & Ho & Hk). destruct (decide (l' = l)) as [->|Hne].
  - exists (fill_missing keys source target). rewrite lookup_insert_eq.
    split; [done|]. apply fill_missing_lookup_Some. congruence.
  - exists o. by rewrite lookup_insert_ne.
Qed.

Lemma validate_configuration_keeps (cfg : loc) (h : Heap) (l : loc)
    (key : string) (v : JsVal) :
  has_prop h l key v -> has_prop (validate_configuration cfg h) l key v.
Proof.
  intros Hhas. unfold validate_configuration.
  destruct (h !! cfg) as [o|] eqn:Ho; [|done].
  destruct (h !! loc_defaultConfiguration) as [d|]; [|done].
  by apply has_prop_fill.
Qed.

Lemma get_prop_ref (h : Heap) (l : loc) (key : string) (target : loc) :
  get_prop h l key = VRef target -> has_prop h l key (VRef target).
Proof.
  unfold get_prop, has_prop. destruct (h !! l) as [o|] eqn:Ho; [|done].
  destruct (o !! key) as [v|] eqn:Hk; [|done].
  intros Hv. exists o. split; [done|]. rewrite Hk. f_equal. exact Hv.
Qed.

Lemma validate_requestTimeoutConfig_inv (cfg : loc) (h h' : Heap) :
  validate_requestTimeoutConfig cfg h = Some h' ->
  exists lt ld t d,
    has_prop h cfg "requestTimeoutConfig" (VRef lt)
    /\ has_prop h loc_defaultConfiguration "requestTimeoutConfig" (VRef ld)
    /\ h !! lt = Some t /\ h !! ld = Some d
    /\ h' = <[lt := fill_missing requestTimeoutConfig_keys d t]> h.
Proof.
  unfold validate_requestTimeoutConfig. intros Hv.
  destruct (get_prop h cfg "requestTimeoutConfig") as [| | | |lt| |] eqn:Hcfg;
    try done.
  destruct (get_prop h loc_defaultConfiguration "requestTimeoutConfig")
    as [| | | |ld| |] eqn:Hdflt; try done.
  destruct (h !! lt) as [t|] eqn:Ht; [|done].
  destruct (h !! ld) as [d|] eqn:Hd; [|done].
  apply (inj Some) in Hv. exists lt, ld, t, d.
  split; [by apply get_prop_ref|]. split; [by apply get_prop_ref|]. done.
Qed.

Lemma validate_requestTimeoutConfig_keeps (cfg : loc) (h h' : Heap) (l : loc)
    (key : string) (v : JsVal) :
  validate_requestTimeoutConfig cfg h = Some h' ->
  has_prop h l key v -> has_prop h' l key v.
Proof.
  intros (lt & ld & t & d & _ & _ & Ht & _ & ->)%validate_requestTimeoutConfig_inv.
  by apply has_prop_fill.
Qed.

(** The store the constructor leaves is one of the two it goes through. *)
Lemma store_of_constructor (h : Heap) (oc : gmap string JsVal) (arg : ConfigArg) :
  let h1 := validate_configuration (chosen_configuration h arg) h in
  store_of (constructor h oc arg) = h1
  \/ validate_requestTimeoutConfig (chosen_configuration h arg) h1
     = Some (store_of (constructor h oc arg)).
Proof.
  intros h1. subst h1. unfold constructor.
  destruct (validate_requestTimeoutConfig _ _) as [h2|]; [right|by left].
  destruct (negb (valid_channelId oc)); [done|].
  by destruct (first_missing _ oc).
Qed.

(** X1.  An instance is built only from an omnichannel configuration with a
    known channel id and every required parameter, and it holds that
    configuration. *)
Theorem constructor_built_is_valid (h h' : Heap) (oc : gmap string JsVal)
    (arg : ConfigArg) (this : SDK) :
  constructor h oc arg = Built h' this ->
  omnichannelConfiguration this = oc
  /\ (exists c, oc !! "channelId" = Some (VStr c) /\ c ∈ ChannelId_values)
  /\ (forall key, key ∈ requiredOmnichannelConfigurationParameters ->
        is_Some (oc !! key)).
Proof.
  unfold constructor. intros Hc.
  destruct (validate_requestTimeoutConfig _ _) as [h2|]; [|done].
  destruct (valid_channelId oc) eqn:Hchannel; [|done]. cbn [negb] in Hc.
  destruct (first_missing _ oc) eqn:Hmissing; [done|].
  injection Hc as _ <-. split; [done|]. split.
  - unfold valid_channelId in Hchannel.
    destruct (oc !! "channelId") as [[|c| | | | |]|]; try done.
    exists c. split; [done|]. by apply bool_decide_eq_true in Hchannel.
  - by apply first_missing_None.
Qed.

(** X2.  When the constructor throws, the error is a [TypeError] of the
    timeout validation, or "Invalid channelId" for an unknown channel id, or,
    the channel id being known, "Missing '...'" naming the first required
    parameter that is absent: the channel id is checked before the required
    parameters, and these in their order. *)
Theorem constructor_error_order (h h' : Heap) (oc : gmap string JsVal)
    (arg : ConfigArg) (e : JsError) :
  constructor h oc arg = Threw h' e ->
  e = typeError
  \/ (valid_channelId oc = false /\ e = newError "Invalid channelId")
  \/ (valid_channelId oc = true
      /\ exists before key after,
           requiredOmnichannelConfigurationParameters = (before ++ key :: after)%list
           /\ (forall k, k ∈ before -> is_Some (oc !! k))
           /\ oc !! key = None
           /\ e = newError ("Missing '" ++ key ++ "' in OmnichannelConfiguration")).
Proof.
  unfold constructor. intros Hc.
  destruct (validate_requestTimeoutConfig _ _) as [h2|].
  2:{ left. by injection Hc as _ <-. }
  destruct (valid_channelId oc) eqn:Hchannel; cbn [negb] in Hc.
  2:{ right. left. split; [done|]. by injection Hc as _ <-. }
  destruct (first_missing _ oc) as [key|] eqn:Hmissing; [|done].
  right. right. split; [done|].
  apply first_missing_Some in Hmissing as (before & after & Heq & Hnone & Hall).
  exists before, key, after. repeat split; try done. by injection Hc as _ <-.
Qed.

(** X3.  The constructor only adds keys: whatever key an object of the store
    has keeps its value, whether the instance is built or not. *)
Theorem constructor_never_overwrites (h : Heap) (oc : gmap string JsVal)
    (arg : ConfigArg) (l : loc) (o : gmap string JsVal) (key : string) (v : JsVal) :
  h !! l = Some o -> o !! key = Some v ->
  get_prop (store_of (constructor h oc arg)) l key = v.
Proof.
  intros Ho Hk. apply has_prop_get_prop.
  assert (has_prop h l key v) as Hhas by (by exists o).
  apply (validate_configuration_keeps (chosen_configuration h arg)) in Hhas.
  destruct (store_of_constructor h oc arg) as [->|Hv]; [done|].
  by apply (validate_requestTimeoutConfig_keeps _ _ _ _ _ _ Hv).
Qed.

(** X4.  The configuration object of a built instance has every key of the
    default configuration, and its [requestTimeoutConfig] refers to an
    object that has every timeout. *)
Theorem constructor_completes_configuration (h h' : Heap)
    (oc : gmap string JsVal) (arg : ConfigArg) (this : SDK) :
  constructor h oc arg = Built h' this ->
  (forall key, key ∈ configuration_keys ->
     exists v, has_prop h' (configuration this) key v)
  /\ exists lt,
       has_prop h' (configuration this) "requestTimeoutConfig" (VRef lt)
       /\ forall key, key ∈ requestTimeoutConfig_keys -> exists v, has_prop h' lt key v.
Proof.
  intros (Hcfg & _ & Hv)%constructor_Built. rewrite Hcfg.
  set (cfg := chosen_configuration h arg) in *.
  pose proof Hv as (lt & ld & t & d & Hrt & Hrd & Ht & Hd & ->)%validate_requestTimeoutConfig_inv.
  split.
  - intros key Hin.
    assert (exists v, has_prop (validate_configuration cfg h) cfg key v) as [v Hhas].
    { destruct Hrt as (o1 & Ho1 & _). destruct Hrd as (od & Hod & _).
      unfold validate_configuration in *.
      destruct (h !! cfg) as [o|] eqn:Ho.
      - destruct (h !! loc_defaultConfiguration) as [d0|] eqn:Hd0.
        + destruct (fill_missing_present configuration_keys d0 o key Hin) as [v Hv'].
          exists v, (fill_missing configuration_keys d0 o).
          by rewrite lookup_insert_eq.
        + congruence.
      - congruence. }
    exists v. by apply has_prop_fill.
  - exists lt. split; [by apply has_prop_fill|].
    intros key Hin.
    destruct (fill_missing_present requestTimeoutConfig_keys d t key Hin) as [v Hv'].
    exists v, (fill_missing requestTimeoutConfig_keys d t).
    by rewrite lookup_insert_eq.
Qed.

End ConstructorMore.

Section ConstructorDefaults.
Context `{Imports}.

Lemma timeout_keys_are_no_configuration_keys (key : string) :
  key ∈ requestTimeoutConfig_keys -> key ∉ configuration_keys.
Proof.
  assert (Forall (fun k => k ∉ configuration_keys) requestTimeoutConfig_keys) as Hall.
  { by apply (bool_decide_unpack _); vm_compute. }
  rewrite Forall_forall in Hall. apply Hall.
Qed.

Lemma has_prop_functional (h : Heap) (l : loc) (key : string) (v v' : JsVal) :
  has_prop h l key v -> has_prop h l key v' -> v = v'.
Proof. intros (o & Ho & Hk) (o' & Ho' & Hk'). congruence. Qed.

Lemma chosen_configuration_object (h : Heap) (l : loc) (o : gmap string JsVal)
    (key : string) (v : JsVal) :
  h !! l = Some o -> o !! key = Some v -> chosen_configuration h (ArgObject l) = l.
Proof.
  intros Ho Hk. simpl. rewrite Ho.
  destruct (Nat.eqb (size o) 0) eqn:Hsz; [|done].
  apply Nat.eqb_eq, map_size_empty_iff in Hsz. subst o.
  by rewrite lookup_empty in Hk.
Qed.

(** X5.  A key of the default configuration that the caller's (non-empty)
    configuration object lacks is written into that object, with the value
    the shared default has, whether the instance is built or not. *)
Theorem constructor_fills_caller_configuration (h : Heap)
    (oc : gmap string JsVal) (l : loc) (o d : gmap string JsVal) (key : string)
    (v : JsVal) :
  h !! l = Some o -> size o <> 0%nat ->
  h !! loc_defaultConfiguration = Some d ->
  key ∈ configuration_keys -> o !! key = None -> d !! key = Some v ->
  has_prop (store_of (constructor h oc (ArgObject l))) l key v.
Proof.
  intros Ho Hsize Hd Hin Hnone Hv.
  assert (chosen_configuration h (ArgObject l) = l) as Hl.
  { simpl. rewrite Ho. by apply Nat.eqb_neq in Hsize as ->. }
  assert (has_prop (validate_configuration l h) l key v) as Hhas.
  { unfold validate_configuration. rewrite Ho, Hd.
    exists (fill_missing configuration_keys d o). rewrite lookup_insert_eq.
    split; [done|]. rewrite fill_missing_lookup_None by done. by rewrite Hv. }
  destruct (store_of_constructor h oc (ArgObject l)) as [Heq|Hreq];
    rewrite Hl in *.
  - by rewrite Heq.
  - by apply (validate_requestTimeoutConfig_keeps _ _ _ _ _ _ Hreq).
Qed.

(** X6.  A timeout that the caller's own [requestTimeoutConfig] object lacks
    is written into it, with the value of the default timeout table, when
    the instance is built. *)
Theorem constructor_fills_caller_timeouts (h h' : Heap) (oc : gmap string JsVal)
    (l lt ld : loc) (o t dt : gmap string JsVal) (key : string) (v : JsVal)
    (this : SDK) :
  constructor h oc (ArgObject l) = Built h' this ->
  h !! l = Some o -> o !! "requestTimeoutConfig" = Some (VRef lt) ->
  h !! lt = Some t ->
  has_prop h loc_defaultConfiguration "requestTimeoutConfig" (VRef ld) ->
  h !! ld = Some dt ->
  key ∈ requestTimeoutConfig_keys -> t !! key = None -> dt !! key = Some v ->
  has_prop h' lt key v.
Proof.
  intros Hc Ho Hrt Ht Hrd Hdt Hin Hnone Hv.
  apply constructor_Built in Hc as (_ & _ & Hreq).
  rewrite (chosen_configuration_object h l o _ _ Ho Hrt) in Hreq.
  set (h1 := validate_configuration l h) in *.
  assert (has_prop h1 l "requestTimeoutConfig" (VRef lt)) as Hrt1.
  { apply validate_configuration_keeps. by exists o. }
  assert (has_prop h1 loc_defaultConfiguration "requestTimeoutConfig" (VRef ld))
    as Hrd1 by (by apply validate_configuration_keeps).
  assert (has_prop h1 ld key v) as Hv1.
  { apply validate_configuration_keeps. by exists dt. }
  assert (exists t1, h1 !! lt = Some t1 /\ t1 !! key = None) as (t1 & Ht1 & Hnone1).
  { subst h1. unfold validate_configuration. rewrite Ho.
    destruct Hrd as (d & Hd & _). rewrite Hd.
    destruct (decide (l = lt)) as [->|Hne].
    - exists (fill_missing configuration_keys d o). rewrite lookup_insert_eq.
      split; [done|].
      rewrite fill_missing_lookup_notin
        by (by apply timeout_keys_are_no_configuration_keys).
      congruence.
    - exists t. by rewrite lookup_insert_ne. }
  apply validate_requestTimeoutConfig_inv in Hreq
    as (lt' & ld' & t' & d' & Hrt' & Hrd' & Ht' & Hd' & ->).
  pose proof (has_prop_functional _ _ _ _ _ Hrt1 Hrt') as [= <-].
  pose proof (has_prop_functional _ _ _ _ _ Hrd1 Hrd') as [= <-].
  assert (t' = t1) as -> by congruence.
  destruct Hv1 as (d1 & Hd1 & Hk1). assert (d' = d1) as -> by congruence.
  exists (fill_missing requestTimeoutConfig_keys d1 t1). rewrite lookup_insert_eq.
  split; [done|]. rewrite fill_missing_lookup_None by done. by rewrite Hk1.
Qed.

Lemma classLoad_intact (uuid : string) (waitTimes dfltHeaders : gmap string JsVal) :
  default_intact (classLoad uuid waitTimes dfltHeaders).
Proof.
  exists (defaultConfiguration uuid), loc_defaultRequestTimeoutConfig,
    defaultRequestTimeoutConfig.
  split; [apply classLoad_defaultConfiguration|]. split.
  { intros key Hin. unfold configuration_keys in Hin.
    repeat (apply elem_of_cons in Hin as [->|Hin]; [by eexists|]).
    by apply elem_of_nil in Hin. }
  split; [reflexivity|]. split.
  { unfold classLoad. by repeat (rewrite lookup_insert_ne by done);
      rewrite lookup_insert_eq. }
  intros key Hin. unfold requestTimeoutConfig_keys in Hin.
  repeat (apply elem_of_cons in Hin as [->|Hin]; [by eexists|]).
  by apply elem_of_nil in Hin.
Qed.

(** A committed nonce does not disturb the default configuration. *)
Lemma setAuthCodeNonce_intact (this : SDK) (hs : option (gmap string string))
    (h : Heap) :
  default_intact h -> default_intact (setAuthCodeNonce this hs h).
Proof.
  intros Hint. unfold setAuthCodeNonce.
  destruct hs as [hs|]; [|done].
  destruct (hs !! "authcodenonce") as [x|]; [|done].
  destruct (truthy_string x); [|done].
  destruct Hint as (d & lt & t & Hd & Hkeys & Hrt & Ht & Htimes).
  unfold set_prop. set (cfg := configuration this).
  assert (forall l (o : gmap string JsVal), h !! l = Some o ->
          exists o', alter (fun o : gmap string JsVal =>
                              <["authCodeNonce" := VStr x]> o) cfg h !! l = Some o'
                     /\ forall key, is_Some (o !! key) -> is_Some (o' !! key))
    as Hgrow.
  { intros l o Ho. destruct (decide (cfg = l)) as [->|Hne].
    - exists (<["authCodeNonce" := VStr x]> o). rewrite lookup_alter_eq, Ho.
      split; [done|]. intros key Hsome.
      destruct (decide ("authCodeNonce" = key)) as [<-|Hk].
      + rewrite lookup_insert_eq. eauto.
      + by rewrite lookup_insert_ne.
    - exists o. by rewrite lookup_alter_ne. }
  destruct (decide (cfg = loc_defaultConfiguration)) as [Hcfg|Hcfg].
  - exists (<["authCodeNonce" := VStr x]> d), lt.
    destruct (Hgrow lt t Ht) as (t' & Ht' & Hkeep). exists t'.
    split; [by rewrite Hcfg, lookup_alter_eq, Hd|]. split.
    { intros key Hin. destruct (decide ("authCodeNonce" = key)) as [<-|Hk].
      - rewrite lookup_insert_eq. eauto.
      - rewrite lookup_insert_ne by done. by apply Hkeys. }
    split; [by rewrite lookup_insert_ne|]. split; [done|].
    intros key Hin. by apply Hkeep, Htimes.
  - exists d, lt. destruct (Hgrow lt t Ht) as (t' & Ht' & Hkeep). exists t'.
    split; [by rewrite lookup_alter_ne|]. split; [done|]. split; [done|].
    split; [done|]. intros key Hin. by apply Hkeep, Htimes.
Qed.

(** X7.  With the default configuration intact, building an instance without
    a configuration of its own leaves the store exactly as it was, also when
    the constructor throws. *)
Theorem constructor_default_leaves_store (h : Heap) (oc : gmap string JsVal)
    (arg : ConfigArg) :
  default_intact h -> without_configuration h arg = true ->
  store_of (constructor h oc arg) = h.
Proof.
  intros (d & lt & t & Hd & Hkeys & Hrt & Ht & Htimes) Hwithout.
  apply without_configuration_default in Hwithout as [Hcfg _].
  assert (validate_configuration loc_defaultConfiguration h = h) as Hstep1.
  { unfold validate_configuration. rewrite Hd.
    rewrite fill_missing_id by done. by apply insert_id. }
  assert (validate_requestTimeoutConfig loc_defaultConfiguration h = Some h)
    as Hstep2.
  { unfold validate_requestTimeoutConfig.
    rewrite (has_prop_get_prop h _ _ (VRef lt)) by (by exists d).
    cbv beta iota. rewrite Ht. rewrite fill_missing_id by done.
    f_equal. by apply insert_id. }
  destruct (store_of_constructor h oc arg) as [Heq|Hreq];
    rewrite Hcfg, Hstep1 in *; [done|].
  rewrite Hstep2 in Hreq. by apply (inj Some) in Hreq.
Qed.

End ConstructorDefaults.

(** ** What the operations write *)

Section Frames.
Context `{Imports}.

(** What every commit keeps, the attempt loop keeps. *)
Lemma attempt_loop_invariant {S : Type}
    (commit : option (gmap string string) -> S -> S)
    (snapshot : S -> string -> option JsVal)
    (transport : nat -> gmap string JsVal -> AttemptResult)
    (policy : RetryPolicy) (P : S -> Prop) :
  (forall hs st, P st -> P (commit hs st)) ->
  forall budget n hdrs st w,
    P st ->
    P (final (attempt_loop commit snapshot transport policy budget n hdrs st w)).
Proof.
  intros Hstep. induction budget as [|b IH]; intros n hdrs st w Hst;
    cbn [attempt_loop]; destruct (transport n hdrs) as [r|e];
    try (destruct (retry _)); cbn [final]; auto.
Qed.

Lemma execute_invariant {S : Type}
    (commit : option (gmap string string) -> S -> S)
    (snapshot : S -> string -> option JsVal)
    (transport : nat -> gmap string JsVal -> AttemptResult)
    (policy : RetryPolicy) (P : S -> Prop) (hdrs : gmap string JsVal) (st : S) :
  (forall hs st, P st -> P (commit hs st)) ->
  P st -> P (final (execute commit snapshot transport policy hdrs st)).
Proof. intros Hstep Hst. unfold execute. by apply attempt_loop_invariant. Qed.

Lemma keeps_instance_refl (this : SDK) : keeps_instance this this.
Proof. by repeat split. Qed.

Lemma keeps_store_refl (this : SDK) (h : Heap) : keeps_store this h h.
Proof. by intros l key _. Qed.

Lemma setSessionId_keeps (this this' : SDK) (hs : option (gmap string string)) :
  keeps_instance this this' -> keeps_instance this (setSessionId hs this').
Proof.
  intros Hkeep. unfold setSessionId.
  destruct hs as [hs|]; [|done].
  destruct (hs !! toLowerCase header_ocSessionId) as [v|]; [|done].
  destruct (truthy_string v); [|done].
  destruct Hkeep as (? & ? & ? & ? & ?). repeat split; simpl; eauto.
Qed.

Lemma setAuthCodeNonce_keeps (this this' : SDK) (hs : option (gmap string string))
    (h h' : Heap) :
  configuration this' = configuration this ->
  keeps_store this h h' -> keeps_store this h (setAuthCodeNonce this' hs h').
Proof.
  intros Hcfg Hkeep l key Hne. unfold setAuthCodeNonce.
  destruct hs as [hs|]; [|by apply Hkeep].
  destruct (hs !! "authcodenonce") as [v|]; [|by apply Hkeep].
  destruct (truthy_string v); [|by apply Hkeep].
  rewrite get_prop_set_prop_ne by (by rewrite Hcfg). by apply Hkeep.
Qed.

(** The state of a call that started in [(h, this)]. *)
Lemma commit_session_keeps (this : SDK) (h : Heap)
    (hs : option (gmap string string)) (st : Heap * SDK) :
  keeps_instance this (snd st) /\ keeps_store this h (fst st) ->
  keeps_instance this (snd (commit_session hs st))
  /\ keeps_store this h (fst (commit_session hs st)).
Proof.
  intros [Hi Hs]. unfold commit_session. cbn [fst snd]. split.
  - by apply setSessionId_keeps.
  - apply setAuthCodeNonce_keeps; [apply Hi|done].
Qed.

Lemma commit_nonce_keeps (this : SDK) (h : Heap)
    (hs : option (gmap string string)) (st : Heap * SDK) :
  snd st = this /\ keeps_store this h (fst st) ->
  snd (commit_nonce hs st) = this /\ keeps_store this h (fst (commit_nonce hs st)).
Proof.
  intros [Hi Hs]. unfold commit_nonce. cbn [fst snd]. split; [done|].
  apply setAuthCodeNonce_keeps; [by rewrite Hi|done].
Qed.

Lemma execute_commit_session_keeps
    (transport : nat -> gmap string JsVal -> AttemptResult)
    (policy : RetryPolicy) (hdrs : gmap string JsVal) (this : SDK) (h : Heap) :
  let d := execute commit_session snapshot_session transport policy hdrs (h, this) in
  keeps_instance this (snd (final d)) /\ keeps_store this h (fst (final d)).
Proof.
  apply (execute_invariant commit_session snapshot_session transport policy
           (fun st => keeps_instance this (snd st) /\ keeps_store this h (fst st))).
  - intros hs st. apply commit_session_keeps.
  - split; [apply keeps_instance_refl|apply keeps_store_refl].
Qed.

Lemma execute_commit_nonce_keeps
    (transport : nat -> gmap string JsVal -> AttemptResult)
    (policy : RetryPolicy) (hdrs : gmap string JsVal) (this : SDK) (h : Heap) :
  let d := execute commit_nonce snapshot_session transport policy hdrs (h, this) in
  snd (final d) = this /\ keeps_store this h (fst (final d)).
Proof.
  apply (execute_invariant commit_nonce snapshot_session transport policy
           (fun st => snd st = this /\ keeps_store this h (fst st))).
  - intros hs st. apply commit_nonce_keeps.
  - split; [done|apply keeps_store_refl].
Qed.

Lemma execute_commit_nothing_keeps
    (transport : nat -> gmap string JsVal -> AttemptResult)
    (policy : RetryPolicy) (hdrs : gmap string JsVal) (st : Heap * SDK) :
  final (execute commit_nothing snapshot_session transport policy hdrs st) = st.
Proof.
  by apply (execute_invariant commit_nothing snapshot_session transport policy
              (fun st' => st' = st)).
Qed.

(** Writing the request headers into the shared object changes that
    object only. *)
Lemma keeps_store_headers (this : SDK) (h h' : Heap) (hdrs : gmap string JsVal) :
  keeps_store this (<[loc_defaultHeaders := hdrs]> h) h' ->
  keeps_store_but_headers this h h'.
Proof.
  intros Hkeep l key Hl Hne. rewrite Hkeep by done.
  unfold get_prop. by rewrite lookup_insert_ne.
Qed.

(** X8.  [getChatToken] writes nothing in the store but the shared default
    headers and the nonce of the instance's configuration object, and it
    leaves the instance as it is apart from the session id, which it may set
    or replace but never clears. *)
Theorem getChatToken_writes
    (transport : nat -> gmap string JsVal -> AttemptResult)
    (this : SDK) (h : Heap) (requestId : string) (params : OptionalParams)
    (currentRetryCount : Z) (uuid : string) :
  let r := getChatToken transport this h requestId params currentRetryCount uuid in
  keeps_instance this (this_after r)
  /\ keeps_store_but_headers this h (heap_after r).
Proof.
  intros r. subst r. unfold getChatToken.
  destruct (Z.ltb currentRetryCount 0).
  { cbn [this_after heap_after]. split; [apply keeps_instance_refl|].
    by intros l key _ _. }
  unfold getChatToken_dispatch.
  set (rid := if truthy_string requestId then requestId else uuid).
  set (hdrs := getChatToken_headers this h rid params).
  set (h1 := <[loc_defaultHeaders := hdrs]> h).
  destruct (execute_commit_session_keeps transport
              (getChatToken_policy this h1 currentRetryCount) hdrs this h1)
    as [Hi Hs].
  destruct (outcome _) as [response|error]; cbn [this_after heap_after].
  - unfold getChatToken_then. cbn [fst snd]. split.
    + by apply setSessionId_keeps.
    + apply (keeps_store_headers _ _ _ hdrs).
      apply setAuthCodeNonce_keeps; [apply Hi|done].
  - split; [done|]. by apply (keeps_store_headers _ _ _ hdrs).
Qed.


End Frames.

Section InstanceUntouched.
Context `{Imports}.

Ltac after_nonce_dispatch Hkeep :=
  match goal with
  | |- context [execute commit_nonce snapshot_session ?t ?p ?hd (?h1, ?this)] =>
      destruct (execute_commit_nonce_keeps t p hd this h1) as [Hkeep _];
      destruct (outcome (execute commit_nonce snapshot_session t p hd (h1, this)));
      cbn [this_after]; exact Hkeep
  end.

(** X10.  Only [getChatToken] and [createConversation] ever change the
    instance: every other operation returns it as it was, whatever the
    responses carry (the session id header of a response included). *)
Theorem operations_keep_instance
    (transport : nat -> gmap string JsVal -> AttemptResult)
    (this : SDK) (h : Heap) (requestId token : string) (params : OptionalParams) :
  this_after (validateAuthChatRecord transport this h requestId params) = this
  /\ this_after (sessionInit transport this h requestId params) = this
  /\ this_after (getAgentAvailability transport this h requestId params) = this
  /\ this_after (sessionClose transport this h requestId params) = this
  /\ this_after (submitPostChatResponse transport this h requestId params) = this
  /\ this_after (getReconnectableChats transport this h token requestId) = this
  /\ this_after (getReconnectAvailability transport this h requestId) = this
  /\ this_after (getLcwFcsDetails transport this h) = this.
Proof.
  repeat split.
  - unfold validateAuthChatRecord, validateAuthChatRecord_dispatch.
    after_nonce_dispatch Hkeep.
  - unfold sessionInit, sessionInit_dispatch.
    destruct (getContext params && negb window_document); [done|].
    destruct (truthy_string _ && negb _); [done|].
    after_nonce_dispatch Hkeep.
  - unfold getAgentAvailability, getAgentAvailability_dispatch.
    destruct (getContext params && negb window_document); [done|].
    destruct (truthy_string _ && negb _); [done|].
    after_nonce_dispatch Hkeep.
  - unfold sessionClose, sessionClose_dispatch. after_nonce_dispatch Hkeep.
  - unfold submitPostChatResponse, submitPostChatResponse_dispatch.
    after_nonce_dispatch Hkeep.
  - unfold getReconnectableChats. by destruct (request_once _ _).
  - unfold getReconnectAvailability. by destruct (request_once _ _).
  - unfold getLcwFcsDetails, getLcwFcsDetails_dispatch.
    rewrite execute_commit_nothing_keeps. by destruct (outcome _).
Qed.

(** X11.  [getReconnectAvailability], [getChatConfig] and [getLcwFcsDetails]
    never commit a nonce: the first writes the shared default headers and
    nothing else, the other two leave the whole store as it was, whatever
    the responses carry. *)
Theorem operations_without_commit
    (transport : nat -> gmap string JsVal -> AttemptResult)
    (this : SDK) (h : Heap) (requestId uuid : string) (bypassCache : bool) :
  (forall l key, l <> loc_defaultHeaders ->
     get_prop (heap_after (getReconnectAvailability transport this h requestId)) l key
     = get_prop h l key)
  /\ heap_after (getChatConfig transport this h requestId bypassCache uuid) = h
  /\ heap_after (getLcwFcsDetails transport this h) = h.
Proof.
  repeat split.
  - intros l key Hl. unfold getReconnectAvailability.
    destruct (request_once _ _); cbn [heap_after]; unfold get_prop;
      by rewrite lookup_insert_ne.
  - unfold getChatConfig, getChatConfig_dispatch.
    rewrite execute_commit_nothing_keeps.
    destruct (outcome _) as [response|error]; [|done].
    by destruct (data response).
  - unfold getLcwFcsDetails, getLcwFcsDetails_dispatch.
    rewrite execute_commit_nothing_keeps. by destruct (outcome _).
Qed.

End InstanceUntouched.

(** ** Commits one after the other *)

Section Commits.
Context `{Imports}.

(** X23.  Of two nonce commits the later one that carries a nonce wins,
    also when the two go through different instances that hold the same
    configuration object; a later response without a nonce (or with an empty
    one) leaves the earlier nonce in place; and committing the same headers
    twice is committing them once. *)
Theorem commits_last_writer_wins (this other : SDK) (h : Heap)
    (hs1 hs2 : gmap string string) (x1 : string) :
  configuration other = configuration this ->
  is_Some (h !! configuration this) ->
  hs1 !! "authcodenonce" = Some x1 -> x1 <> "" ->
  let h1 := setAuthCodeNonce this (Some hs1) h in
  (forall x2, hs2 !! "authcodenonce" = Some x2 -> x2 <> "" ->
     read_authCodeNonce this (setAuthCodeNonce other (Some hs2) h1) = VStr x2)
  /\ (hs2 !! "authcodenonce" = None \/ hs2 !! "authcodenonce" = Some "" ->
      read_authCodeNonce this (setAuthCodeNonce other (Some hs2) h1) = VStr x1)
  /\ setAuthCodeNonce other (Some hs1) h1 = h1.
Proof.
  intros Hother Hobj Hx1 Hne1 h1.
  assert (is_Some (h1 !! configuration this)) as Hobj1.
  { subst h1. unfold setAuthCodeNonce. rewrite Hx1.
    destruct (truthy_string x1); [|done]. by apply set_prop_is_Some. }
  assert (read_authCodeNonce this h1 = VStr x1) as Hread1.
  { subst h1. unfold read_authCodeNonce, setAuthCodeNonce. rewrite Hx1.
    apply truthy_string_true in Hne1. rewrite Hne1.
    by apply get_prop_set_prop_eq. }
  repeat split.
  - intros x2 Hx2 Hne2. unfold read_authCodeNonce, setAuthCodeNonce at 1.
    rewrite Hx2. apply truthy_string_true in Hne2. rewrite Hne2, Hother.
    by apply get_prop_set_prop_eq.
  - intros [Hnone|Hempty]; unfold setAuthCodeNonce at 1.
    + by rewrite Hnone.
    + by rewrite Hempty.
  - unfold setAuthCodeNonce at 1. rewrite Hx1.
    apply truthy_string_true in Hne1. rewrite Hne1, Hother.
    destruct Hobj1 as [o Ho]. unfold set_prop.
    apply map_eq. intros l. destruct (decide (configuration this = l)) as [<-|Hl].
    + rewrite lookup_alter_eq, Ho. cbn. f_equal. apply insert_id.
      unfold read_authCodeNonce, get_prop in Hread1. rewrite Ho in Hread1.
      destruct (o !! "authCodeNonce") as [v|]; [|done]. by rewrite <- Hread1.
    + by rewrite lookup_alter_ne.
Qed.

End Commits.

(** ** Request headers *)

Section RequestHeaders.
Context `{Imports}.

Lemma header_names_distinct :
  headers_independent ->
  header_authCodeNonce <> header_authenticatedUserToken
  /\ header_authCodeNonce <> header_ocSessionId
  /\ header_authCodeNonce <> header_correlationId
  /\ header_authCodeNonce <> header_requestId
  /\ header_authenticatedUserToken <> header_ocSessionId
  /\ header_authenticatedUserToken <> header_correlationId
  /\ header_authenticatedUserToken <> header_requestId
  /\ header_ocSessionId <> header_correlationId
  /\ header_ocSessionId <> header_requestId.
Proof.
  intros [Hnodup _]. unfold header_names in Hnodup.
  apply NoDup_cons in Hnodup as [Hnonce Hnodup].
  apply NoDup_cons in Hnodup as [Htoken Hnodup].
  apply NoDup_cons in Hnodup as [Hsession _].
  repeat (apply not_elem_of_cons in Hnonce as [? Hnonce]).
  repeat (apply not_elem_of_cons in Htoken as [? Htoken]).
  repeat (apply not_elem_of_cons in Hsession as [? Hsession]).
  by repeat split.
Qed.

(** The default headers leave the two headers of an authenticated request
    alone. *)
Lemma addDefaultHeaders_other (this : SDK) (requestId : string)
    (hs : gmap string JsVal) (name : string) :
  headers_independent ->
  name = header_authCodeNonce \/ name = header_authenticatedUserToken ->
  addDefaultHeaders this requestId hs !! name = hs !! name.
Proof.
  intros Hind Hname.
  pose proof (header_names_distinct Hind) as (? & ? & ? & ? & ? & ? & ? & ? & ?).
  destruct Hind as [_ Hagent].
  assert (name ∈ header_names) as Hin.
  { unfold header_names. destruct Hname as [-> | ->]; set_solver. }
  assert (name <> header_ocSessionId /\ name <> header_correlationId) as [Hs Hc].
  { by destruct Hname as [-> | ->]. }
  unfold addDefaultHeaders, setCorrelationIdInHeader, setSessionIdHeader.
  assert ((if truthy_string requestId
           then <[header_correlationId := VStr requestId]>
                  (addOcUserAgentHeader (ocUserAgent this)
                     match sessionId this with
                     | Some s =>
                         if truthy_string s
                         then <[header_ocSessionId := VStr s]> hs else hs
                     | None => hs
                     end)
           else addOcUserAgentHeader (ocUserAgent this)
                  match sessionId this with
                  | Some s =>
                      if truthy_string s
                      then <[header_ocSessionId := VStr s]> hs else hs
                  | None => hs
                  end) !! name
          = match sessionId this with
            | Some s =>
                if truthy_string s then <[header_ocSessionId := VStr s]> hs else hs
            | None => hs
            end !! name) as ->.
  { destruct (truthy_string requestId).
    - rewrite lookup_insert_ne by done. by apply Hagent.
    - by apply Hagent. }
  destruct (sessionId this) as [s|]; [|done].
  destruct (truthy_string s); [|done]. by rewrite lookup_insert_ne.
Qed.

Lemma setRequestIdHeader_other (requestId : string) (hs : gmap string JsVal)
    (name : string) :
  name <> header_requestId -> setRequestIdHeader requestId hs !! name = hs !! name.
Proof.
  intros Hne. unfold setRequestIdHeader.
  destruct (truthy_string requestId); [|done]. by rewrite lookup_insert_ne.
Qed.

(** X12.  Once a response has committed a nonce (through this instance or
    another one that holds the same configuration object), every
    authenticated request built afterwards presents that nonce: the requests
    of [getChatToken] and [submitPostChatResponse], of
    [validateAuthChatRecord], [getAgentAvailability] and [sessionClose], of
    [createConversation] and [sessionInit], and of [getReconnectableChats]. *)
Theorem authenticated_requests_present_committed_nonce
    (this other : SDK) (h : Heap) (hs : gmap string string) (x : string)
    (requestId token : string) (params : OptionalParams) :
  headers_independent ->
  configuration other = configuration this ->
  is_Some (h !! configuration this) ->
  hs !! "authcodenonce" = Some x -> x <> "" ->
  truthy_opt (authenticatedUserToken params) = true ->
  let h' := setAuthCodeNonce other (Some hs) h in
  getChatToken_headers this h' requestId params !! header_authCodeNonce
  = Some (VStr x)
  /\ validateAuthChatRecord_headers this h' requestId params !! header_authCodeNonce
     = Some (VStr x)
  /\ createConversation_headers this h' requestId params !! header_authCodeNonce
     = Some (VStr x)
  /\ getReconnectableChats_headers this h' token requestId !! header_authCodeNonce
     = Some (VStr x).
Proof.
  intros Hind Hother Hobj Hx Hne Htoken h'.
  pose proof (header_names_distinct Hind) as (Hnt & _ & _ & Hnr & _).
  assert (read_authCodeNonce this h' = VStr x) as Hread.
  { subst h'. unfold read_authCodeNonce, setAuthCodeNonce. rewrite Hx.
    apply truthy_string_true in Hne. rewrite Hne, Hother.
    by apply get_prop_set_prop_eq. }
  assert (forall base, add_auth_headers this h' (authenticatedUserToken params) base
                       !! header_authCodeNonce = Some (VStr x)) as Hauth.
  { intros base. unfold add_auth_headers.
    destruct (authenticatedUserToken params) as [t|]; [|done].
    simpl in Htoken. rewrite Htoken, Hread. by rewrite lookup_insert_eq. }
  repeat split.
  - unfold getChatToken_headers. apply Hauth.
  - unfold validateAuthChatRecord_headers.
    rewrite addDefaultHeaders_other by auto. apply Hauth.
  - unfold createConversation_headers.
    rewrite setRequestIdHeader_other by done.
    rewrite addDefaultHeaders_other by auto. apply Hauth.
  - unfold getReconnectableChats_headers.
    rewrite addDefaultHeaders_other by auto.
    rewrite Hread. by rewrite lookup_insert_eq.
Qed.

(** The objects a call does not hold stay what they are through the
    dispatch. *)
Lemma execute_commit_session_objects
    (transport : nat -> gmap string JsVal -> AttemptResult)
    (policy : RetryPolicy) (hdrs : gmap string JsVal) (this : SDK) (h : Heap)
    (l : loc) :
  l <> configuration this ->
  let d := execute commit_session snapshot_session transport policy hdrs (h, this) in
  fst (final d) !! l = h !! l /\ configuration (snd (final d)) = configuration this.
Proof.
  intros Hl.
  apply (execute_invariant commit_session snapshot_session transport policy
           (fun st => fst st !! l = h !! l
                      /\ configuration (snd st) = configuration this)); [|done].
  intros hs [h' this'] [Hobj Hcfg]. cbn [fst snd] in *.
  unfold commit_session. cbn [fst snd]. split.
  - unfold setAuthCodeNonce. destruct hs as [hs|]; [|done].
    destruct (hs !! "authcodenonce") as [v|]; [|done].
    destruct (truthy_string v); [|done].
    unfold set_prop. rewrite lookup_alter_ne by (by rewrite Hcfg). done.
  - pose proof (setSessionId_keeps this' this' hs (keeps_instance_refl _))
      as [Heq _]. by rewrite Heq.
Qed.

(** X13.  [getChatToken] leaves its request headers in the shared default
    headers object, so the token and the nonce of an authenticated call are
    still sent by a later call made without a token: that call presents the
    earlier token, and the nonce as it was when the earlier call began. *)
Theorem token_stays_in_shared_headers
    (transport : nat -> gmap string JsVal -> AttemptResult)
    (this : SDK) (h : Heap) (requestId : string) (params : OptionalParams)
    (currentRetryCount : Z) (uuid : string) (t : string) :
  headers_independent ->
  configuration this <> loc_defaultHeaders ->
  (0 <= currentRetryCount)%Z ->
  authenticatedUserToken params = Some t -> t <> "" ->
  let r := getChatToken transport this h requestId params currentRetryCount uuid in
  heap_after r !! loc_defaultHeaders
  = Some (getChatToken_headers this h
            (if truthy_string requestId then requestId else uuid) params)
  /\ forall requestId2 params2,
       authenticatedUserToken params2 = None ->
       let next := getChatToken_headers (this_after r) (heap_after r)
                     requestId2 params2 in
       next !! header_authenticatedUserToken = Some (VStr t)
       /\ next !! header_authCodeNonce = Some (read_authCodeNonce this h).
Proof.
  intros Hind Hcfg Hcount Htoken Hne r.
  pose proof (header_names_distinct Hind) as (Hnt & _).
  set (rid := if truthy_string requestId then requestId else uuid).
  set (hdrs := getChatToken_headers this h rid params).
  assert (heap_after r !! loc_defaultHeaders = Some hdrs) as Hshared.
  { subst r. unfold getChatToken, getChatToken_dispatch.
    destruct (Z.ltb_spec currentRetryCount 0); [lia|]. fold rid. fold hdrs.
    set (h1 := <[loc_defaultHeaders := hdrs]> h).
    destruct (execute_commit_session_objects transport
                (getChatToken_policy this h1 currentRetryCount) hdrs this h1
                loc_defaultHeaders ltac:(done)) as [Hobj Hsame].
    assert (h1 !! loc_defaultHeaders = Some hdrs) as Hh1
      by (subst h1; by rewrite lookup_insert_eq).
    destruct (outcome _) as [response|error]; cbn [heap_after].
    - unfold getChatToken_then. cbn [fst snd]. unfold setAuthCodeNonce.
      destruct (headers response) as [hs|]; [|by rewrite Hobj].
      destruct (hs !! "authcodenonce") as [v|]; [|by rewrite Hobj].
      destruct (truthy_string v); [|by rewrite Hobj].
      unfold set_prop. rewrite lookup_alter_ne by (by rewrite Hsame).
      by rewrite Hobj.
    - by rewrite Hobj. }
  split; [exact Hshared|].
  intros requestId2 params2 Hnone next. subst next.
  unfold getChatToken_headers. rewrite Hnone. cbn [add_auth_headers].
  rewrite !addDefaultHeaders_other by auto. rewrite Hshared. cbn [default from_option id].
  subst hdrs. unfold getChatToken_headers, add_auth_headers. rewrite Htoken.
  apply truthy_string_true in Hne. rewrite Hne. split.
  - rewrite lookup_insert_ne by done. by rewrite lookup_insert_eq.
  - by rewrite lookup_insert_eq.
Qed.

(** The session id of the instance is among the default headers. *)
Lemma addDefaultHeaders_session (this : SDK) (requestId : string)
    (hs : gmap string JsVal) (v : string) :
  headers_independent ->
  sessionId this = Some v -> v <> "" ->
  addDefaultHeaders this requestId hs !! header_ocSessionId = Some (VStr v).
Proof.
  intros Hind Hsid Hne.
  pose proof (header_names_distinct Hind) as (_ & _ & _ & _ & _ & _ & _ & Hsc & _).
  destruct Hind as [_ Hagent].
  unfold addDefaultHeaders, setCorrelationIdInHeader, setSessionIdHeader.
  rewrite Hsid. apply truthy_string_true in Hne. rewrite Hne.
  assert (header_ocSessionId ∈ header_names) as Hin.
  { unfold header_names. set_solver. }
  destruct (truthy_string requestId).
  - rewrite lookup_insert_ne by done. rewrite Hagent by done.
    by rewrite lookup_insert_eq.
  - rewrite Hagent by done. by rewrite lookup_insert_eq.
Qed.

(** X22.  The session id that the response to [getChatToken] brings is held
    by the instance afterwards and goes out with the requests built from
    then on: those of [getChatToken], [validateAuthChatRecord],
    [createConversation] and [getChatConfig], authenticated or not. *)
Theorem session_id_round_trip
    (transport : nat -> gmap string JsVal -> AttemptResult)
    (this : SDK) (h : Heap) (requestId : string) (params : OptionalParams)
    (currentRetryCount : Z) (uuid : string) (response : AxiosResponse)
    (hs : gmap string string) (v : string) :
  headers_independent ->
  (0 <= currentRetryCount)%Z ->
  outcome (getChatToken_dispatch transport this h
             (if truthy_string requestId then requestId else uuid) params
             currentRetryCount)
  = Succeeded response ->
  headers response = Some hs ->
  hs !! toLowerCase header_ocSessionId = Some v -> v <> "" ->
  let r := getChatToken transport this h requestId params currentRetryCount uuid in
  sessionId (this_after r) = Some v
  /\ forall h2 requestId2 params2 bypassCache,
       getChatToken_headers (this_after r) h2 requestId2 params2
         !! header_ocSessionId = Some (VStr v)
       /\ validateAuthChatRecord_headers (this_after r) h2 requestId2 params2
            !! header_ocSessionId = Some (VStr v)
       /\ createConversation_headers (this_after r) h2 requestId2 params2
            !! header_ocSessionId = Some (VStr v)
       /\ getChatConfig_headers (this_after r) requestId2 bypassCache
            !! header_ocSessionId = Some (VStr v).
Proof.
  intros Hind Hcount Hd Hheaders Hv Hne r.
  pose proof (header_names_distinct Hind)
    as (Hnt & Hns & _ & _ & Hts & _ & _ & _ & Hsr).
  assert (sessionId (this_after r) = Some v) as Hsid.
  { subst r. unfold getChatToken.
    destruct (Z.ltb_spec currentRetryCount 0); [lia|].
    rewrite Hd. unfold getChatToken_then. cbn [this_after fst snd].
    unfold setSessionId. rewrite Hheaders, Hv.
    apply truthy_string_true in Hne. by rewrite Hne. }
  split; [exact Hsid|]. intros h2 requestId2 params2 bypassCache.
  assert (forall base,
            add_auth_headers (this_after r) h2 (authenticatedUserToken params2)
              base !! header_ocSessionId = base !! header_ocSessionId) as Hauth.
  { intros base. unfold add_auth_headers.
    destruct (authenticatedUserToken params2) as [t|]; [|done].
    destruct (truthy_string t); [|done].
    by rewrite !lookup_insert_ne by done. }
  repeat split.
  - unfold getChatToken_headers. rewrite Hauth.
    by apply addDefaultHeaders_session.
  - unfold validateAuthChatRecord_headers. by apply addDefaultHeaders_session.
  - unfold createConversation_headers.
    rewrite setRequestIdHeader_other by done.
    by apply addDefaultHeaders_session.
  - unfold getChatConfig_headers.
    pose proof (addDefaultHeaders_session (this_after r) requestId2 ∅ v
                  Hind Hsid Hne) as Hdefault.
    destruct bypassCache; [|done].
    by apply lookup_union_Some_l.
Qed.

End RequestHeaders.

(** ** How the operations settle *)

Section Settling.
Context `{Imports}.

Lemma catch_with_timeout_settles (error : Thrown) :
  catch_with_timeout error Pending <> Pending.
Proof.
  rewrite catch_with_timeout_spec. by destruct (isExpectedAxiosError _ _).
Qed.

Lemma sessionClose_catch_spec (error : JsError) :
  sessionClose_catch error
  = if isExpectedAxiosError (ThrowError error) axiosTimeoutErrorCode
    then Rejected (ThrowError (newError HTTPTimeOutErrorMessage))
    else Rejected (ThrowError error).
Proof.
  unfold sessionClose_catch, isExpectedAxiosError.
  by destruct (bool_decide _).
Qed.

(** X14.  The promises of [getReconnectableChats],
    [getReconnectAvailability], [sessionInit], [sessionClose],
    [submitPostChatResponse] and [validateAuthChatRecord] are never left
    pending: every path through their handlers resolves or rejects. *)
Theorem operations_always_settle
    (transport : nat -> gmap string JsVal -> AttemptResult)
    (this : SDK) (h : Heap) (requestId token : string) (params : OptionalParams) :
  settled (getReconnectableChats transport this h token requestId) <> Pending
  /\ settled (getReconnectAvailability transport this h requestId) <> Pending
  /\ settled (sessionInit transport this h requestId params) <> Pending
  /\ settled (sessionClose transport this h requestId params) <> Pending
  /\ settled (submitPostChatResponse transport this h requestId params) <> Pending
  /\ settled (validateAuthChatRecord transport this h requestId params) <> Pending.
Proof.
  repeat split.
  - unfold getReconnectableChats.
    destruct (request_once _ _) as [response|error]; cbn [settled].
    + by destruct (data response).
    + apply catch_with_timeout_settles.
  - unfold getReconnectAvailability.
    destruct (request_once _ _) as [response|error]; cbn [settled].
    + by destruct (data response).
    + apply catch_with_timeout_settles.
  - unfold sessionInit.
    destruct (getContext params && negb window_document); [done|].
    destruct (truthy_string _ && negb _); [done|].
    destruct (outcome _); cbn [settled]; [done|apply catch_with_timeout_settles].
  - unfold sessionClose. destruct (outcome _) as [response|error]; cbn [settled];
      [done|]. rewrite sessionClose_catch_spec.
    by destruct (isExpectedAxiosError _ _).
  - unfold submitPostChatResponse.
    destruct (outcome _); cbn [settled]; [done|apply catch_with_timeout_settles].
  - unfold validateAuthChatRecord.
    destruct (outcome _) as [response|error]; cbn [settled].
    + unfold validateAuthChatRecord_then. by destruct (authChatExist _).
    + unfold validateAuthChatRecord_catch.
      by destruct (isExpectedAxiosError _ _), (bool_decide _).
Qed.

(** X15.  [getAgentAvailability] has no [else] for a response without a
    body: when the request succeeds with such a response the promise is left
    pending, while the nonce of the response is still committed. *)
Theorem getAgentAvailability_left_pending
    (transport : nat -> gmap string JsVal -> AttemptResult)
    (this : SDK) (h : Heap) (requestId : string) (params : OptionalParams)
    (response : AxiosResponse) :
  getContext params && negb window_document = false ->
  effective_locale params ∈ supportedLocales ->
  outcome (getAgentAvailability_dispatch transport this h requestId params)
  = Succeeded response ->
  data response = DataNone ->
  let r := getAgentAvailability transport this h requestId params in
  settled r = Pending
  /\ heap_after r
     = setAuthCodeNonce this (headers response)
         (fst (final (getAgentAvailability_dispatch transport this h requestId params))).
Proof.
  intros Hcontext Hlocale Hd Hdata r. subst r. unfold getAgentAvailability.
  rewrite Hcontext. rewrite bool_decide_eq_true_2 by done.
  cbn [negb]. rewrite andb_false_r.
  rewrite Hd. cbn [settled heap_after]. rewrite Hdata. split; [done|].
  unfold getAgentAvailability_dispatch.
  by destruct (execute_commit_nonce_keeps transport
                 (getAgentAvailability_policy this h)
                 (validateAuthChatRecord_headers this h requestId params) this
                 (<[loc_defaultHeaders :=
                      validateAuthChatRecord_headers this h requestId params]> h))
    as [-> _].
Qed.

(** X16.  A failure that is a timeout is rejected with the fixed timeout
    message by [validateAuthChatRecord] (even when the error reads like the
    404 of its carve-out), by [sessionClose] (which compares [error.code]
    itself), by [submitPostChatResponse], and by the two operations that send
    a single request; any other failure of the last four is rejected as it
    is. *)
Theorem timeouts_are_normalized
    (transport : nat -> gmap string JsVal -> AttemptResult)
    (this : SDK) (h : Heap) (requestId token : string) (params : OptionalParams)
    (error : JsError) :
  let fixed := Rejected (ThrowError (newError HTTPTimeOutErrorMessage)) in
  let verdict :=
    if isExpectedAxiosError (ThrowError error) axiosTimeoutErrorCode
    then fixed else Rejected (ThrowError error) in
  (outcome (validateAuthChatRecord_dispatch transport this h requestId params)
   = Failed error ->
   isExpectedAxiosError (ThrowError error) axiosTimeoutErrorCode = true ->
   settled (validateAuthChatRecord transport this h requestId params) = fixed)
  /\ (outcome (sessionClose_dispatch transport this h requestId params)
      = Failed error ->
      settled (sessionClose transport this h requestId params) = verdict)
  /\ (outcome (submitPostChatResponse_dispatch transport this h requestId params)
      = Failed error ->
      settled (submitPostChatResponse transport this h requestId params) = verdict)
  /\ (transport 0%nat (getReconnectableChats_headers this h token requestId)
      = AttemptErr error ->
      settled (getReconnectableChats transport this h token requestId) = verdict)
  /\ (transport 0%nat
        (addDefaultHeaders this requestId (default ∅ (h !! loc_defaultHeaders)))
      = AttemptErr error ->
      settled (getReconnectAvailability transport this h requestId) = verdict).
Proof.
  intros fixed verdict. subst fixed verdict. repeat split.
  - intros Hd Htimeout. unfold validateAuthChatRecord. rewrite Hd. cbn [settled].
    unfold validateAuthChatRecord_catch. rewrite Htimeout.
    by destruct (bool_decide _).
  - intros Hd. unfold sessionClose. rewrite Hd. cbn [settled].
    apply sessionClose_catch_spec.
  - intros Hd. unfold submitPostChatResponse. rewrite Hd. cbn [settled].
    apply catch_with_timeout_spec.
  - intros Ht. unfold getReconnectableChats, request_once. rewrite Ht.
    cbn [settled]. apply catch_with_timeout_spec.
  - intros Ht. unfold getReconnectAvailability, request_once. rewrite Ht.
    cbn [settled]. apply catch_with_timeout_spec.
Qed.


End Settling.

Section TypingIndicatorFacts.
Context `{Imports} `{MoreImports}.

(** X18.  [sendTypingIndicator] sends a request only for live chat version
    2: for any other version (0 included) it resolves at once and leaves the
    store alone, so its "only supported on v2" error is never thrown, and a
    rejection always follows a request that was sent.  It never leaves the
    promise pending, never changes the instance, and writes nothing in the
    store but the shared default headers (a nonce in the response is not
    committed). *)
Theorem sendTypingIndicator_behaviour
    (transport : nat -> gmap string JsVal -> AttemptResult)
    (this : SDK) (h : Heap) (requestId : string) (currentLiveChatVersion : Z)
    (customerDisplayName : option string) :
  let r := sendTypingIndicator transport this h requestId currentLiveChatVersion
             customerDisplayName in
  (dispatched r = 0%nat <->
     currentLiveChatVersion = 0%Z \/ currentLiveChatVersion <> LiveChatVersion_V2)
  /\ (dispatched r = 0%nat -> settled r = Resolved DataNone /\ heap_after r = h)
  /\ (forall e, settled r = Rejected e -> dispatched r = 1%nat)
  /\ settled r <> Pending
  /\ this_after r = this
  /\ (forall l key, l <> loc_defaultHeaders ->
        get_prop (heap_after r) l key = get_prop h l key).
Proof.
  intros r. subst r. unfold sendTypingIndicator.
  assert (not_v2 currentLiveChatVersion = true <->
          currentLiveChatVersion = 0%Z \/ currentLiveChatVersion <> LiveChatVersion_V2)
    as Hv2.
  { unfold not_v2. rewrite orb_true_iff, negb_true_iff, Z.eqb_eq, Z.eqb_neq.
    done. }
  destruct (not_v2 currentLiveChatVersion) eqn:Hnot.
  - cbn [dispatched settled heap_after this_after].
    repeat split; try done. intros _. by apply Hv2.
  - assert (~ (currentLiveChatVersion = 0%Z
               \/ currentLiveChatVersion <> LiveChatVersion_V2)) as Hv.
    { intros Hcase. apply Hv2 in Hcase. congruence. }
    destruct (request_once _ _) as [response|error];
      cbn [dispatched settled heap_after this_after];
      repeat split; try done;
      try (intros Hcase; by destruct Hv);
      try apply catch_with_timeout_settles;
      intros l key Hl; unfold get_prop; by rewrite lookup_insert_ne.
Qed.

End TypingIndicatorFacts.

(** ** The 404 carve-out, read literally *)

Section CarveOut.
Context `{Imports}.

(** The text has a single ": ", after "Error". *)
Lemma toString_404_split (n m : string) :
  n ++ ": " ++ m = "Error: Request failed with status code 404" ->
  n = "Error" /\ m = "Request failed with status code 404".
Proof.
  intros Heq.
  do 5 (destruct n as [|? n]; cbv [String.append] in Heq;
        [discriminate Heq|injection Heq as -> Heq]).
  destruct n as [|? n]; cbv [String.append] in Heq.
  - injection Heq as ->. by split.
  - exfalso. injection Heq as -> Heq.
    do 40 (destruct n as [|? n]; cbv [String.append] in Heq;
           [discriminate Heq|
            first [discriminate Heq | injection Heq as -> Heq]]).
Qed.

Lemma error_toString_404 (e : JsError) :
  error_toString e = "Error: Request failed with status code 404" <->
  (err_name e = "Error" /\ err_message e = "Request failed with status code 404")
  \/ (err_name e = "" /\ err_message e = "Error: Request failed with status code 404")
  \/ (err_name e = "Error: Request failed with status code 404"
      /\ err_message e = "").
Proof.
  unfold error_toString.
  destruct (err_name e) as [|a n] eqn:Hn;
    destruct (err_message e) as [|b m] eqn:Hm.
  - split; [discriminate|]. intros [[? _]|[[_ ?]|[? _]]]; discriminate.
  - split; [intros Heq; right; left; by split|].
    intros [[? _]|[[_ ?]|[_ ?]]]; [discriminate|done|discriminate].
  - split; [intros Heq; right; right; by split|].
    intros [[_ ?]|[[? _]|[? _]]]; [discriminate|discriminate|done].
  - split.
    + intros Heq. left. by apply toString_404_split.
    + intros [[-> ->]|[[? _]|[_ ?]]]; [done|discriminate|discriminate].
Qed.

(** X19.  After a failed request, [validateAuthChatRecord] resolves with an
    empty object exactly when the error is no timeout and its name and
    message make up the literal text "Error: Request failed with status code
    404"; the status of the response plays no part, and an error of any other
    name (an "AxiosError", say) with that message and a 404 response is
    rejected. *)
Theorem validateAuthChatRecord_resolves_empty_iff
    (transport : nat -> gmap string JsVal -> AttemptResult)
    (this : SDK) (h : Heap) (requestId : string) (params : OptionalParams)
    (error : JsError) :
  outcome (validateAuthChatRecord_dispatch transport this h requestId params)
  = Failed error ->
  settled (validateAuthChatRecord transport this h requestId params)
  = Resolved (DataObject ∅)
  <->
  isExpectedAxiosError (ThrowError error) axiosTimeoutErrorCode = false
  /\ ((err_name error = "Error"
       /\ err_message error = "Request failed with status code 404")
      \/ (err_name error = ""
          /\ err_message error = "Error: Request failed with status code 404")
      \/ (err_name error = "Error: Request failed with status code 404"
          /\ err_message error = "")).
Proof.
  intros Hd. unfold validateAuthChatRecord. rewrite Hd. cbn [settled].
  unfold validateAuthChatRecord_catch. rewrite <- error_toString_404.
  cbn [toString].
  destruct (isExpectedAxiosError _ _); case_bool_decide; cbn [resolve reject];
    split; try discriminate; try (intros [? ?]; congruence); try done.
Qed.

End CarveOut.

(** ** What the operations resolve with *)

Section Results.
Context `{Imports}.

(** X20.  With a body that is not empty, [getChatToken] resolves with the
    body in which [requestId] is the id of the request: the one given, or
    the generated one when none (or an empty one) was given; a [requestId]
    the body brought is replaced, every other field is the body's. *)
Theorem getChatToken_resolves_with_request_id
    (transport : nat -> gmap string JsVal -> AttemptResult)
    (this : SDK) (h : Heap) (requestId : string) (params : OptionalParams)
    (currentRetryCount : Z) (uuid : string) (response : AxiosResponse)
    (o : gmap string JsVal) :
  (0 <= currentRetryCount)%Z ->
  let rid := if truthy_string requestId then requestId else uuid in
  outcome (getChatToken_dispatch transport this h rid params currentRetryCount)
  = Succeeded response ->
  data response = DataObject o -> o <> ∅ ->
  exists body,
    settled (getChatToken transport this h requestId params currentRetryCount uuid)
    = Resolved (DataObject body)
    /\ body !! "requestId" = Some (VStr rid)
    /\ (requestId = "" -> body !! "requestId" = Some (VStr uuid))
    /\ forall key, key <> "requestId" -> body !! key = o !! key.
Proof.
  intros Hcount rid Hd Hdata Hne.
  exists (<["requestId" := VStr rid]> o).
  unfold getChatToken. destruct (Z.ltb_spec currentRetryCount 0); [lia|].
  fold rid. rewrite Hd. unfold getChatToken_then. cbn [settled fst].
  rewrite Hdata.
  assert (Nat.eqb (size o) 0 = false) as ->.
  { apply Nat.eqb_neq. by rewrite map_size_empty_iff. }
  repeat split.
  - by rewrite lookup_insert_eq.
  - intros ->. by rewrite lookup_insert_eq.
  - intros key Hkey. by rewrite lookup_insert_ne.
Qed.

(** X21.  [getChatConfig] changes nothing of the instance but the live chat
    version, and that only after a response with an object body, to the
    truthy [LiveChatVersion] of that body: a failed request, a response
    without an object body, and a body without a [LiveChatVersion] (or with
    0) leave the instance as it was.  With an object body it resolves with
    the body in which [headers] holds the date of the response and nothing
    else; otherwise it is rejected, with the error of the request or with
    the [TypeError] of the assignment to [headers]. *)
Theorem getChatConfig_result
    (transport : nat -> gmap string JsVal -> AttemptResult)
    (this : SDK) (h : Heap) (requestId : string) (bypassCache : bool)
    (uuid : string) :
  let r := getChatConfig transport this h requestId bypassCache uuid in
  let d := getChatConfig_dispatch transport this h
             (if truthy_string requestId then requestId else uuid) bypassCache in
  configuration (this_after r) = configuration this
  /\ sessionId (this_after r) = sessionId this
  /\ omnichannelConfiguration (this_after r) = omnichannelConfiguration this
  /\ ocUserAgent (this_after r) = ocUserAgent this
  /\ (forall error,
        outcome d = Failed error ->
        this_after r = this /\ settled r = Rejected (ThrowError error))
  /\ (forall response,
        outcome d = Succeeded response -> data response = DataNone ->
        this_after r = this /\ settled r = Rejected (ThrowError headersTypeError))
  /\ (forall response o,
        outcome d = Succeeded response -> data response = DataObject o ->
        settled r
        = Resolved (DataObject (<["headers" := VObj (date_header response)]> o))
        /\ liveChatVersion (this_after r)
           = if truthy (default VUndefined (o !! "LiveChatVersion"))
             then default VUndefined (o !! "LiveChatVersion")
             else liveChatVersion this)
  /\ (liveChatVersion (this_after r) <> liveChatVersion this ->
        exists response o,
          outcome d = Succeeded response /\ data response = DataObject o
          /\ o !! "LiveChatVersion" = Some (liveChatVersion (this_after r))
          /\ truthy (liveChatVersion (this_after r)) = true).
Proof.
  intros r d. subst r d. unfold getChatConfig, getChatConfig_dispatch.
  rewrite execute_commit_nothing_keeps. cbn [fst snd].
  destruct (outcome _) as [response|error]; cbn [this_after settled].
  2:{ do 4 (split; [reflexivity|]).
      split; [by intros error' [= <-]|].
      split; [intros response' Hs; discriminate Hs|].
      split; [intros response' o Hs; discriminate Hs|].
      intros Hne. by destruct Hne. }
  destruct (data response) as [|o] eqn:Hdata; cbn [this_after settled].
  { do 4 (split; [reflexivity|]).
    split; [intros error Hs; discriminate Hs|].
    split; [done|].
    split; [intros response' o [= <-] Hd; congruence|].
    intros Hne. by destruct Hne. }
  destruct (truthy (default VUndefined (o !! "LiveChatVersion"))) eqn:Htruthy;
    cbn [set_liveChatVersion configuration sessionId omnichannelConfiguration
         ocUserAgent liveChatVersion].
  - do 4 (split; [reflexivity|]).
    split; [intros error Hs; discriminate Hs|].
    split; [intros response' [= <-] Hd; congruence|].
    split.
    + intros response' o' [= <-] Hd.
      assert (o' = o) as -> by congruence. by rewrite Htruthy.
    + intros _. exists response, o. split; [reflexivity|]. split; [exact Hdata|].
      destruct (o !! "LiveChatVersion") as [v|] eqn:Hv; [|discriminate Htruthy].
      by split.
  - do 4 (split; [reflexivity|]).
    split; [intros error Hs; discriminate Hs|].
    split; [intros response' [= <-] Hd; congruence|].
    split.
    + intros response' o' [= <-] Hd.
      assert (o' = o) as -> by congruence. by rewrite Htruthy.
    + intros Hne. by destruct Hne.
Qed.

End Results.

(** ** The further properties on the concrete environment *)

Section FurtherRuns.
Import Example Sample.
Local Existing Instance imports.
Local Existing Instance more_imports.

Lemma example_headers_independent : headers_independent.
Proof.
  split.
  - by apply (bool_decide_unpack _); vm_compute.
  - intros ua hs name _. reflexivity.
Qed.

Lemma store_defaultConfiguration :
  store !! loc_defaultConfiguration = Some (defaultConfiguration uuid).
Proof. apply classLoad_defaultConfiguration. Qed.

Lemma store_with_partial_timeouts :
  store_with_partial !! loc_defaultRequestTimeoutConfig
  = Some defaultRequestTimeoutConfig.
Proof.
  unfold store_with_partial, store, classLoad.
  do 5 (rewrite lookup_insert_ne by discriminate). apply lookup_insert_eq.
Qed.

Lemma store_with_partial_defaultConfiguration :
  store_with_partial !! loc_defaultConfiguration = Some (defaultConfiguration uuid).
Proof.
  unfold store_with_partial. rewrite !lookup_insert_ne by done.
  apply store_defaultConfiguration.
Qed.

Lemma constructor_built_is_valid_witness :
  exists h' this,
    constructor store omnichannel ArgOmitted = Built h' this
    /\ omnichannelConfiguration this = omnichannel
    /\ is_Some (omnichannel !! "orgId").
Proof.
  assert (is_built (constructor store omnichannel ArgOmitted) = true) as Hbuilt
    by (vm_compute; reflexivity).
  destruct (constructor store omnichannel ArgOmitted) as [h' this|h' e] eqn:Hc;
    [|discriminate Hbuilt].
  exists h', this. split; [reflexivity|].
  destruct (constructor_built_is_valid store h' omnichannel ArgOmitted this Hc)
    as (Hoc & _ & Hrequired).
  split; [exact Hoc|]. apply Hrequired.
  by apply (bool_decide_unpack _); vm_compute.
Defined.

Lemma constructor_error_order_witness :
  exists h' e,
    constructor store omnichannel_without_orgId ArgOmitted = Threw h' e
    /\ (e = typeError
        \/ (valid_channelId omnichannel_without_orgId = false
            /\ e = newError "Invalid channelId")
        \/ (valid_channelId omnichannel_without_orgId = true
            /\ exists before key after,
                 requiredOmnichannelConfigurationParameters
                 = (before ++ key :: after)%list
                 /\ (forall k, k ∈ before ->
                       is_Some (omnichannel_without_orgId !! k))
                 /\ omnichannel_without_orgId !! key = None
                 /\ e = newError ("Missing '" ++ key
                                  ++ "' in OmnichannelConfiguration"))).
Proof.
  assert (is_threw (constructor store omnichannel_without_orgId ArgOmitted) = true)
    as Hthrew by (vm_compute; reflexivity).
  destruct (constructor store omnichannel_without_orgId ArgOmitted)
    as [h' this|h' e] eqn:Hc; [discriminate Hthrew|].
  exists h', e. split; [reflexivity|].
  exact (constructor_error_order store h' omnichannel_without_orgId ArgOmitted e Hc).
Defined.

Lemma constructor_never_overwrites_witness :
  store_with_caller !! loc_caller = Some {[ "authCodeNonce" := VStr "caller01" ]}
  /\ get_prop
       (store_of (constructor store_with_caller omnichannel (ArgObject loc_caller)))
       loc_caller "authCodeNonce"
     = VStr "caller01".
Proof.
  assert (store_with_caller !! loc_caller
          = Some {[ "authCodeNonce" := VStr "caller01" ]}) as Hobj.
  { unfold store_with_caller. apply lookup_insert_eq. }
  split; [exact Hobj|].
  apply (constructor_never_overwrites store_with_caller omnichannel
           (ArgObject loc_caller) loc_caller _ "authCodeNonce" _ Hobj).
  apply lookup_singleton_eq.
Defined.

Lemma constructor_completes_configuration_witness :
  exists h' this,
    constructor store_with_caller omnichannel (ArgObject loc_caller) = Built h' this
    /\ exists v, has_prop h' (configuration this) "maxRequestRetriesOnFailure" v.
Proof.
  assert (is_built (constructor store_with_caller omnichannel (ArgObject loc_caller))
          = true) as Hbuilt by (vm_compute; reflexivity).
  destruct (constructor store_with_caller omnichannel (ArgObject loc_caller))
    as [h' this|h' e] eqn:Hc; [|discriminate Hbuilt].
  exists h', this. split; [reflexivity|].
  destruct (constructor_completes_configuration store_with_caller h' omnichannel
              (ArgObject loc_caller) this Hc) as (Hkeys & _).
  apply Hkeys. by apply (bool_decide_unpack _); vm_compute.
Defined.

Lemma constructor_fills_caller_configuration_witness :
  has_prop
    (store_of (constructor store_with_partial omnichannel (ArgObject loc_partial)))
    loc_partial "authCodeNonce" (VStr "123e4567").
Proof.
  apply (constructor_fills_caller_configuration store_with_partial omnichannel
           loc_partial
           (list_to_map [ ("maxRequestRetriesOnFailure", VNum 1);
                          ("requestTimeoutConfig", VRef loc_timeouts) ])
           (defaultConfiguration uuid) "authCodeNonce" (VStr "123e4567")).
  - unfold store_with_partial. apply lookup_insert_eq.
  - vm_compute. discriminate.
  - apply store_with_partial_defaultConfiguration.
  - apply nonce_is_configuration_key.
  - vm_compute. reflexivity.
  - vm_compute. reflexivity.
Defined.

Lemma constructor_fills_caller_timeouts_witness :
  exists h' this,
    constructor store_with_partial omnichannel (ArgObject loc_partial) = Built h' this
    /\ has_prop h' loc_timeouts "sessionInit" (VNum 15000).
Proof.
  assert (is_built (constructor store_with_partial omnichannel (ArgObject loc_partial))
          = true) as Hbuilt by (vm_compute; reflexivity).
  assert (store_with_partial !! loc_timeouts = Some {[ "getChatToken" := VNum 7000 ]})
    as Htimeouts.
  { unfold store_with_partial. rewrite lookup_insert_ne by done.
    apply lookup_insert_eq. }
  destruct (constructor store_with_partial omnichannel (ArgObject loc_partial))
    as [h' this|h' e] eqn:Hc; [|discriminate Hbuilt].
  exists h', this. split; [reflexivity|].
  apply (constructor_fills_caller_timeouts store_with_partial h' omnichannel
           loc_partial loc_timeouts loc_defaultRequestTimeoutConfig
           (list_to_map [ ("maxRequestRetriesOnFailure", VNum 1);
                          ("requestTimeoutConfig", VRef loc_timeouts) ])
           {[ "getChatToken" := VNum 7000 ]} defaultRequestTimeoutConfig
           "sessionInit" (VNum 15000) this Hc).
  - unfold store_with_partial. apply lookup_insert_eq.
  - vm_compute. reflexivity.
  - exact Htimeouts.
  - exists (defaultConfiguration uuid).
    split; [apply store_with_partial_defaultConfiguration|].
    vm_compute. reflexivity.
  - apply store_with_partial_timeouts.
  - by apply (bool_decide_unpack _); vm_compute.
  - vm_compute. reflexivity.
  - vm_compute. reflexivity.
Defined.

Lemma constructor_default_leaves_store_witness :
  default_intact store
  /\ store_of (constructor store omnichannel_without_orgId ArgPrimitive) = store.
Proof.
  assert (default_intact store) as Hintact by apply classLoad_intact.
  split; [exact Hintact|].
  exact (constructor_default_leaves_store store omnichannel_without_orgId
           ArgPrimitive Hintact eq_refl).
Defined.

Lemma operations_without_commit_witness :
  let r := getReconnectAvailability (always (AttemptOk rotating_response)) sdk
             store "request-1" in
  get_prop (heap_after r) loc_defaultConfiguration "authCodeNonce"
  = get_prop store loc_defaultConfiguration "authCodeNonce".
Proof.
  intros r.
  destruct (operations_without_commit (always (AttemptOk rotating_response)) sdk
              store "request-1" uuid false) as (Hframe & _).
  apply Hframe. discriminate.
Defined.

Lemma authenticated_requests_present_committed_nonce_witness :
  getChatToken_headers sdk (setAuthCodeNonce sdk (Some rotated) store)
    "request-1" auth_params !! "AuthCodeNonce"
  = Some (VStr "n2").
Proof.
  destruct (authenticated_requests_present_committed_nonce sdk sdk store rotated
              "n2" "request-1" "jwt" auth_params example_headers_independent
              eq_refl (ex_intro _ _ store_defaultConfiguration)
              ltac:(apply lookup_singleton_eq) ltac:(discriminate) eq_refl)
    as (Htoken & _).
  exact Htoken.
Defined.

Lemma commits_last_writer_wins_witness :
  read_authCodeNonce sdk
    (setAuthCodeNonce sdk (Some {[ "authcodenonce" := "n3" ]})
       (setAuthCodeNonce sdk (Some rotated) store))
  = VStr "n3".
Proof.
  destruct (commits_last_writer_wins sdk sdk store rotated
              {[ "authcodenonce" := "n3" ]} "n2" eq_refl
              (ex_intro _ _ store_defaultConfiguration)
              ltac:(apply lookup_singleton_eq) ltac:(discriminate))
    as (Hlater & _).
  apply (Hlater "n3"); [apply lookup_singleton_eq|discriminate].
Defined.

Lemma token_stays_in_shared_headers_witness :
  let r := getChatToken (always (AttemptOk (response 200 (DataObject token_body))))
             sdk store "request-1" auth_params 0 uuid in
  getChatToken_headers (this_after r) (heap_after r) "request-2" no_params
    !! "AuthenticatedUserToken"
  = Some (VStr "jwt").
Proof.
  intros r.
  destruct (token_stays_in_shared_headers
              (always (AttemptOk (response 200 (DataObject token_body)))) sdk store
              "request-1" auth_params 0 uuid "jwt" example_headers_independent
              ltac:(discriminate) ltac:(lia) eq_refl ltac:(discriminate))
    as (_ & Hnext).
  destruct (Hnext "request-2" no_params eq_refl) as (Htoken & _).
  exact Htoken.
Defined.

Lemma getAgentAvailability_left_pending_witness :
  settled (getAgentAvailability (always (AttemptOk rotating_response)) sdk store
             "request-1" no_params)
  = Pending.
Proof.
  assert (effective_locale no_params ∈ supportedLocales) as Hlocale.
  { by apply (bool_decide_unpack _); vm_compute. }
  destruct (getAgentAvailability_left_pending
              (always (AttemptOk rotating_response)) sdk store "request-1"
              no_params rotating_response eq_refl Hlocale eq_refl eq_refl)
    as (Hpending & _).
  exact Hpending.
Defined.

Lemma timeouts_are_normalized_witness :
  settled (sessionClose (always (AttemptErr timeout_error)) sdk store "request-1"
             no_params)
  = Rejected (ThrowError (newError HTTPTimeOutErrorMessage)).
Proof.
  destruct (timeouts_are_normalized (always (AttemptErr timeout_error)) sdk store
              "request-1" "jwt" no_params timeout_error) as (_ & Hclose & _).
  exact (Hclose eq_refl).
Defined.


Lemma sendTypingIndicator_behaviour_witness :
  let r := sendTypingIndicator (always (AttemptOk rotating_response)) sdk store
             "request-1" 1 None in
  dispatched r = 0%nat /\ settled r = Resolved DataNone.
Proof.
  intros r.
  destruct (sendTypingIndicator_behaviour (always (AttemptOk rotating_response))
              sdk store "request-1" 1 None) as (Hnone & Hresolved & _).
  assert (dispatched r = 0%nat) as Hd.
  { apply Hnone. right. discriminate. }
  split; [exact Hd|]. by apply Hresolved.
Defined.

Lemma validateAuthChatRecord_resolves_empty_iff_witness :
  settled (validateAuthChatRecord (always (AttemptErr axios_404)) sdk store
             "request-1" no_params)
  <> Resolved (DataObject ∅).
Proof.
  intros Hresolved.
  apply (validateAuthChatRecord_resolves_empty_iff (always (AttemptErr axios_404))
           sdk store "request-1" no_params axios_404 eq_refl) in Hresolved
    as (_ & [[Hname _]|[[Hname _]|[Hname _]]]); discriminate Hname.
Defined.

Lemma getChatToken_resolves_with_request_id_witness :
  exists body,
    settled (getChatToken (always (AttemptOk (response 200 (DataObject token_body))))
               sdk store "" no_params 0 uuid)
    = Resolved (DataObject body)
    /\ body !! "requestId" = Some (VStr uuid)
    /\ body !! "Token" = Some (VStr "t").
Proof.
  assert (token_body <> ∅) as Hne.
  { intros Hempty. assert (token_body !! "Token" = Some (VStr "t")) as Htoken
      by apply lookup_singleton_eq.
    rewrite Hempty, lookup_empty in Htoken. discriminate Htoken. }
  destruct (getChatToken_resolves_with_request_id
              (always (AttemptOk (response 200 (DataObject token_body)))) sdk store
              "" no_params 0 uuid (response 200 (DataObject token_body)) token_body
              ltac:(lia) eq_refl eq_refl Hne)
    as (body & Hsettled & _ & Hfresh & Hother).
  exists body. split; [exact Hsettled|]. split; [by apply Hfresh|].
  rewrite Hother by discriminate. apply lookup_singleton_eq.
Defined.

Lemma getChatConfig_result_witness :
  let r := getChatConfig (always (AttemptOk (dated (DataObject body_with_version))))
             sdk store "request-1" false uuid in
  liveChatVersion (this_after r) = VNum 1
  /\ settled r
     = Resolved (DataObject (<["headers" := VObj [("date", "today")]]>
                               body_with_version)).
Proof.
  intros r.
  destruct (getChatConfig_result
              (always (AttemptOk (dated (DataObject body_with_version)))) sdk store
              "request-1" false uuid) as (_ & _ & _ & _ & _ & _ & Hbody & _).
  destruct (Hbody (dated (DataObject body_with_version)) body_with_version
              eq_refl eq_refl) as (Hsettled & Hversion).
  split; [exact Hversion|exact Hsettled].
Defined.

Lemma session_id_round_trip_witness :
  let r := getChatToken (always (AttemptOk session_response)) sdk store
             "request-1" no_params 0 uuid in
  sessionId (this_after r) = Some "sid-1"
  /\ createConversation_headers (this_after r) store "request-2" auth_params
       !! "Oc-Sessionid"
     = Some (VStr "sid-1").
Proof.
  intros r.
  destruct (session_id_round_trip (always (AttemptOk session_response)) sdk store
              "request-1" no_params 0 uuid session_response session_headers "sid-1"
              example_headers_independent ltac:(lia) eq_refl eq_refl
              ltac:(apply lookup_singleton_eq) ltac:(discriminate))
    as (Hsid & Hnext).
  split; [exact Hsid|].
  destruct (Hnext store "request-2" auth_params false) as (_ & _ & Hconversation & _).
  exact Hconversation.
Defined.

End FurtherRuns.
